(** * tweet_Automation: the Telegram-driven tweet bot

    A shallow embedding of [twitter_bot5.py] (the chat-bot variant with the
    inactivity watchdog), together with the parts of [twitter_bot2.py],
    [twitter_bot4.py] and [api/index.py] that share its functions.

    - JSON payloads are values of [jvalue]; Python truthiness is [truthy].
    - A Python call either returns or raises: [result].
    - The module-level globals of the bot are the record [Session].
    - Handlers run in the monad [M]: they read and write the globals, ask
      the outside world (clock, HTTP, tweepy, random) through the oracles of
      [World], append what they do to a log of [event]s, and may raise.
      Globals written before an exception stay written, as in Python.
    - A reading of the clock is a Python float, that is an IEEE 754 binary64
      number: [spec_float] of the standard library, subtracted with [SFsub]
      at precision 53 and compared with [SFleb].
    - Replies to the chat and the write of the draft file are logged and
      taken to succeed.  Events are handled one at a time; a timer that
      fires is one more event. *)

From Stdlib Require Import List String Ascii Bool Arith PeanoNat ZArith QArith.
From Stdlib Require Import Lia Permutation DecimalString.
From Stdlib Require Import Floats.SpecFloat.
Import ListNotations.

Set Warnings "-register-all".
Close Scope Q_scope.
Open Scope string_scope.
Open Scope list_scope.
Open Scope nat_scope.

(** ** Python values *)

Inductive exn : Type :=
| AttributeError
| TypeError
| KeyError
| IndexError
| ConnectionError
| JSONDecodeError.

Inductive result (A : Type) : Type :=
| Return (a : A)
| Raise (e : exn).

Arguments Return {A} a.
Arguments Raise {A} e.

Definition rbind {A B} (r : result A) (k : A -> result B) : result B :=
  match r with
  | Return a => k a
  | Raise e => Raise e
  end.

Declare Scope result_scope.
Delimit Scope result_scope with result.
Notation "'let?' x ':=' r 'in' k" := (rbind r (fun x => k))
  (at level 10, x name, r at level 100, k at level 200) : result_scope.

(** What [response.json()] yields.  An object is the list of its members,
    one per key ([lookup] takes the first member of a key); numbers are kept
    by value. *)
Inductive jvalue : Type :=
| JNull
| JBool (b : bool)
| JNum (q : Q)
| JStr (s : string)
| JArr (items : list jvalue)
| JObj (members : list (string * jvalue)).

(** [bool(v)] *)
Definition truthy (v : jvalue) : bool :=
  match v with
  | JNull => false
  | JBool b => b
  | JNum q => negb (Qeq_bool q 0)
  | JStr s => negb (s =? "")%string
  | JArr items => negb (Nat.eqb (List.length items) 0)
  | JObj members => negb (Nat.eqb (List.length members) 0)
  end.

Fixpoint lookup (key : string) (members : list (string * jvalue)) : option jvalue :=
  match members with
  | [] => None
  | (k, v) :: rest => if (k =? key)%string then Some v else lookup key rest
  end.

(** [v.get(key, default)]: only a dict has [get]. *)
Definition dict_get (v : jvalue) (key : string) (default : jvalue) : result jvalue :=
  match v with
  | JObj members =>
      match lookup key members with
      | Some x => Return x
      | None => Return default
      end
  | _ => Raise AttributeError
  end.

Fixpoint chars (s : string) : list jvalue :=
  match s with
  | EmptyString => []
  | String c rest => JStr (String c EmptyString) :: chars rest
  end.

(** [for x in v] *)
Definition py_iter (v : jvalue) : result (list jvalue) :=
  match v with
  | JArr items => Return items
  | JObj members => Return (map (fun kv => JStr (fst kv)) members)
  | JStr s => Return (chars s)
  | _ => Raise TypeError
  end.

(** ** News items *)

Record article : Type := mkArticle {
  title : jvalue;
  description : jvalue;
  source : jvalue;
  url : jvalue
}.

(** The outcome of one HTTP request made with [requests]: the call raises
    when the server cannot be reached; otherwise there is a status code and
    a body, which [response.json()] decodes or fails to decode. *)
Inductive http_result : Type :=
| Unreachable
| Response (status_code : Z) (body : option jvalue).

Definition response_json (body : option jvalue) : result jvalue :=
  match body with
  | Some data => Return data
  | None => Raise JSONDecodeError
  end.

(** [if title and (description or url)] *)
Definition eligible (a : article) : bool :=
  truthy (title a) && (truthy (description a) || truthy (url a)).

(** The four [get]s of the loop body of [fetch_tech_news]. *)
Definition read_article (raw : jvalue) : result article :=
  (let? t := dict_get raw "title" (JStr "") in
   let? d := dict_get raw "description" (JStr "") in
   let? src := dict_get raw "source" (JObj []) in
   let? name := dict_get src "name" (JStr "") in
   let? u := dict_get raw "url" (JStr "") in
   Return (mkArticle t d name u))%result.

(** The loop of [fetch_tech_news]; [formatted_articles] is the accumulator. *)
Fixpoint format_articles (articles : list jvalue) (formatted_articles : list article)
  : result (list article) :=
  match articles with
  | [] => Return formatted_articles
  | raw :: rest =>
      (let? a := read_article raw in
       if eligible a
       then format_articles rest (formatted_articles ++ [a])
       else format_articles rest formatted_articles)%result
  end.

(** [fetch_tech_news], as a function of what [requests.get] met. *)
Definition fetch_tech_news (response : http_result) : result (option (list article)) :=
  match response with
  | Unreachable => Raise ConnectionError
  | Response status_code body =>
      if (status_code =? 200)%Z then
        (let? data := response_json body in
         let? articles := dict_get data "articles" (JArr []) in
         if negb (truthy articles) then Return None
         else
           let? items := py_iter articles in
           let? formatted_articles := format_articles items [] in
           Return (Some formatted_articles))%result
      else Return None
  end.

(** ** Selection policy *)

(** [i in used_indices] *)
Definition py_in (i : nat) (used_indices : list nat) : bool :=
  existsb (Nat.eqb i) used_indices.

(** [[i for i in range(len(articles)) if i not in used_indices]] *)
Definition available_articles (n : nat) (used_indices : list nat) : list nat :=
  filter (fun i => negb (py_in i used_indices)) (seq 0 n).

(** [random.choice(seq)] with the draw [r] of the generator: the element at
    position [r mod len(seq)]. *)
Definition random_choice (r : nat) (l : list nat) : nat :=
  nth (r mod List.length l) l 0.

Definition render_nat (n : nat) : string :=
  NilEmpty.string_of_uint (Nat.to_uint n).

Definition newline : string := String (ascii_of_nat 10) EmptyString.

Section Formatting.

(** How an f-string renders a JSON value, and [str.strip]. *)
Variable py_str : jvalue -> string.
Variable py_strip : string -> string.

Definition article_info (selected_index n : nat) (selected_article : article) : string :=
  "📰 *Selected Article " ++ render_nat (selected_index + 1) ++ " of "
    ++ render_nat n ++ ":*" ++ newline ++ newline
    ++ "*Title:* " ++ py_str (title selected_article) ++ newline
    ++ "*Source:* " ++ py_str (source selected_article) ++ newline
    ++ "*Description:* " ++ py_str (description selected_article) ++ newline
    ++ "*URL:* " ++ py_str (url selected_article).

(** [select_article(articles, used_indices=None)] of the chat-bot variants;
    [articles] may be [None] when a fetch failed, and then [len] raises.
    [r] is the draw that [random.choice] makes. *)
Definition select_article (articles : option (list article))
    (used_indices : option (list nat)) (r : nat) : result (option (nat * string)) :=
  let used_indices := match used_indices with Some u => u | None => [] end in
  match articles with
  | None => Raise TypeError
  | Some articles =>
      let available := available_articles (List.length articles) used_indices in
      if Nat.eqb (List.length available) 0 then Return None
      else
        let selected_index := random_choice r available in
        match nth_error articles selected_index with
        | None => Raise IndexError
        | Some selected_article =>
            Return (Some (selected_index,
                          article_info selected_index (List.length articles) selected_article))
        end
  end.

(** [select_article] of the command-line variant, which returns the index
    alone. *)
Definition select_article_cli (articles : option (list article))
    (used_indices : option (list nat)) (r : nat) : result (option nat) :=
  let used_indices := match used_indices with Some u => u | None => [] end in
  match articles with
  | None => Raise TypeError
  | Some articles =>
      let available := available_articles (List.length articles) used_indices in
      if Nat.eqb (List.length available) 0 then Return None
      else
        let selected_index := random_choice r available in
        match nth_error articles selected_index with
        | None => Raise IndexError
        | Some _ => Return (Some selected_index)
        end
  end.

End Formatting.

(** ** Draft generator and publisher *)

(** [v[key]] with a string key *)
Definition getitem_key (v : jvalue) (key : string) : result jvalue :=
  match v with
  | JObj members =>
      match lookup key members with
      | Some x => Return x
      | None => Raise KeyError
      end
  | _ => Raise TypeError
  end.

(** [v[0]] *)
Definition getitem_0 (v : jvalue) : result jvalue :=
  match v with
  | JArr items =>
      match items with
      | x :: _ => Return x
      | [] => Raise IndexError
      end
  | JStr s =>
      match s with
      | String c _ => Return (JStr (String c EmptyString))
      | EmptyString => Raise IndexError
      end
  | JObj _ => Raise KeyError
  | _ => Raise TypeError
  end.

Section Adapters.

Variable py_str : jvalue -> string.
Variable py_strip : string -> string.

(** The body of the [try] of [generate_tweet_text]. *)
Definition extract_tweet (data : jvalue) (a : article) : result string :=
  (let? candidates := getitem_key data "candidates" in
   let? candidate := getitem_0 candidates in
   let? content := getitem_key candidate "content" in
   let? parts := getitem_key content "parts" in
   let? part := getitem_0 parts in
   let? tweet_text := getitem_key part "text" in
   match tweet_text with
   | JStr s => Return (py_strip s ++ newline ++ newline ++ py_str (url a))%string
   | _ => Raise AttributeError
   end)%result.

(** [generate_tweet_text(article)], as a function of what [requests.post]
    met; [except (KeyError, IndexError)] returns [None]. *)
Definition generate_tweet_text (a : article) (response : http_result)
  : result (option string) :=
  match response with
  | Unreachable => Raise ConnectionError
  | Response status_code body =>
      if (status_code =? 200)%Z then
        (let? data := response_json body in
         match extract_tweet data a with
         | Return final_tweet => Return (Some final_tweet)
         | Raise KeyError => Return None
         | Raise IndexError => Return None
         | Raise e => Raise e
         end)%result
      else Return None
  end.

End Adapters.

(** [post_tweet(tweet_text)], as a function of what [client.create_tweet]
    did: [None] when it returned, [Some msg] when it raised an exception
    whose [str] is [msg]. *)
Definition post_tweet (create_tweet_error : option string) : bool * string :=
  match create_tweet_error with
  | None => (true, "✅ Tweet posted successfully!")
  | Some msg => (false, ("❌ Error posting tweet: " ++ msg)%string)
  end.

(** ** Clock readings

    [time.time()] returns a Python float: an IEEE 754 binary64 number, with
    53 bits of precision and exponents below 1024. *)

Definition float : Type := spec_float.

(** [x - y] on floats: the difference rounded to the nearest float, ties to
    even. *)
Definition float_sub (x y : float) : float := SFsub 53 1024 x y.

(** [float(n)] for an int [n]; exact when [n] is below [2^53] in size. *)
Definition float_of_int (n : Z) : float := binary_normalize 53 1024 n 0 false.

(** [x >= n] for a float [x] and an int [n] below [2^53] in size; [False]
    when [x] is a NaN. *)
Definition float_ge_int (x : float) (n : Z) : bool := SFleb (float_of_int n) x.

(** [bool(x)]: a zero of either sign is false, every other float is true. *)
Definition float_truthy (x : float) : bool :=
  match x with
  | S754_zero _ => false
  | _ => true
  end.

(** The number a float stands for, when it is one. *)
Definition float_value (x : float) : option Q :=
  match x with
  | S754_zero _ => Some 0%Q
  | S754_finite s m e =>
      Some ((if s then - inject_Z (Zpos m) else inject_Z (Zpos m)) * 2 ^ e)%Q
  | S754_infinity _ => None
  | S754_nan => None
  end.

(** ** Session state: the globals of the module *)

Record Session : Type := mkSession {
  current_articles : option (list article);
  used_indices : list nat;
  current_article : option article;
  current_tweet : option string;
  start_time : option float;
  last_activity_time : option float
}.

Definition initial_session : Session :=
  mkSession (Some []) [] None None None None.

(** [TIMEOUT_SECONDS = 15 * 60] *)
Definition TIMEOUT_SECONDS : Z := (15 * 60)%Z.

(** [not current_articles] is [negb] of this. *)
Definition batch_truthy (b : option (list article)) : bool :=
  match b with
  | Some (_ :: _) => true
  | _ => false
  end.

(** [not current_tweet] is [negb] of this. *)
Definition text_truthy (t : option string) : bool :=
  match t with
  | Some s => negb (s =? "")%string
  | None => false
  end.

(** [last_activity_time if last_activity_time else start_time] tests a float. *)
Definition time_truthy (t : option float) : bool :=
  match t with
  | Some x => float_truthy x
  | None => false
  end.

(** ** The world and the handler monad *)

Inductive callback : Type :=
| cb_force_exit
| cb_check_inactivity_timeout.

(** What a handler does to the outside, in order. *)
Inductive event : Type :=
| reply_text (text : string)
| requests_get
| requests_post (a : article)
| create_tweet (text : string)
| json_dump (a : article) (tweet_text : string)
| timer_start (delay : Q) (cb : callback)
| send_telegram_message (text : string)
| os_exit.

(** The answers of the outside world; the [k]-th question a run asks is
    answered at index [k]. *)
Record World : Type := mkWorld {
  time_time : nat -> float;
  news_api : nat -> http_result;
  gemini_api : nat -> http_result;
  twitter_api : nat -> option string;
  random_draw : nat -> nat;
  console_input : nat -> string
}.

Record Sys : Type := mkSys {
  globals : Session;
  log : list event;
  asked : nat;
  exited : bool
}.

Inductive outcome (A : Type) : Type :=
| Done (a : A)
| Raised (e : exn)
| Exit.

Arguments Done {A} a.
Arguments Raised {A} e.
Arguments Exit {A}.

Definition M (A : Type) : Type := World -> Sys -> outcome A * Sys.

Definition ret {A} (a : A) : M A := fun _ s => (Done a, s).

Definition bind {A B} (m : M A) (k : A -> M B) : M B :=
  fun w s =>
    match m w s with
    | (Done a, s') => k a w s'
    | (Raised e, s') => (Raised e, s')
    | (Exit, s') => (Exit, s')
    end.

Declare Scope bot_scope.
Delimit Scope bot_scope with bot.
Notation "x <- m ;; k" := (bind m (fun x => k))
  (at level 61, m at next level, right associativity) : bot_scope.
Notation "m ;; k" := (bind m (fun _ => k))
  (at level 61, right associativity) : bot_scope.
Notation "' pat <- m ;; k" := (bind m (fun x => match x with pat => k end))
  (at level 61, pat pattern, m at next level, right associativity) : bot_scope.

Definition lift {A} (r : result A) : M A :=
  fun _ s =>
    match r with
    | Return a => (Done a, s)
    | Raise e => (Raised e, s)
    end.

Definition read {A} (field : Session -> A) : M A :=
  fun _ s => (Done (field (globals s)), s).

Definition write (f : Session -> Session) : M unit :=
  fun _ s => (Done tt, mkSys (f (globals s)) (log s) (asked s) (exited s)).

Definition emit (e : event) : M unit :=
  fun _ s => (Done tt, mkSys (globals s) (log s ++ [e]) (asked s) (exited s)).

(** Ask the world: the answer at the current index, which then advances. *)
Definition ask {A} (oracle : World -> nat -> A) : M A :=
  fun w s => (Done (oracle w (asked s)),
              mkSys (globals s) (log s) (S (asked s)) (exited s)).

Definition set_current_articles (v : option (list article)) (g : Session) : Session :=
  mkSession v (used_indices g) (current_article g) (current_tweet g)
            (start_time g) (last_activity_time g).

Definition set_used_indices (v : list nat) (g : Session) : Session :=
  mkSession (current_articles g) v (current_article g) (current_tweet g)
            (start_time g) (last_activity_time g).

Definition set_current_article (v : option article) (g : Session) : Session :=
  mkSession (current_articles g) (used_indices g) v (current_tweet g)
            (start_time g) (last_activity_time g).

Definition set_current_tweet (v : option string) (g : Session) : Session :=
  mkSession (current_articles g) (used_indices g) (current_article g) v
            (start_time g) (last_activity_time g).

Definition set_start_time (v : option float) (g : Session) : Session :=
  mkSession (current_articles g) (used_indices g) (current_article g) (current_tweet g)
            v (last_activity_time g).

Definition set_last_activity_time (v : option float) (g : Session) : Session :=
  mkSession (current_articles g) (used_indices g) (current_article g) (current_tweet g)
            (start_time g) v.

(** ** Handlers of [twitter_bot5.py] *)

(** [str.lower] on the ASCII letters; no other character lowers to a letter
    of ["post"], ["new"] or ["exit"]. *)
Definition lower_ascii (c : ascii) : ascii :=
  let n := nat_of_ascii c in
  if (65 <=? n) && (n <=? 90) then ascii_of_nat (n + 32) else c.

Fixpoint lower (s : string) : string :=
  match s with
  | EmptyString => EmptyString
  | String c rest => String (lower_ascii c) (lower rest)
  end.

Definition msg_welcome : string :=
  "👋 Welcome to the Twitter-Telegram Bot!" ++ newline
  ++ "Use /tweet to find and post tech news tweets.".

Definition msg_help : string :=
  "Commands:" ++ newline
  ++ "/tweet - Start the tweet generation process" ++ newline
  ++ "/help - Show this help message" ++ newline
  ++ newline ++ "When a tweet is generated, you can reply with:" ++ newline
  ++ "- 'post' to publish the tweet" ++ newline
  ++ "- 'new' to generate a new tweet" ++ newline
  ++ "- 'exit' to cancel the process".

Definition msg_looking : string := "🔍 Looking for tech news articles...".
Definition msg_fetch_failed : string :=
  "❌ Failed to fetch tech news articles. Please try again later.".
Definition msg_all_used : string :=
  "🔄 All articles have been used. Fetching new articles...".
Definition msg_refetch_failed : string :=
  "❌ Failed to fetch new articles. Please try again later.".
Definition msg_generating : string := "⏳ Generating tweet text...".
Definition msg_generate_failed : string :=
  "❌ Failed to generate tweet. Type 'new' to try another article or 'exit' to quit.".

Definition msg_preview (tweet : string) : string :=
  "✏️ *Generated Tweet:*" ++ newline ++ newline ++ tweet ++ newline ++ newline
  ++ "Options:" ++ newline
  ++ "- Type 'post' to publish this tweet" ++ newline
  ++ "- Type 'new' to generate a tweet about a different article" ++ newline
  ++ "- Type 'exit' to quit without posting".

Definition msg_use_tweet_first : string :=
  "Please use /tweet to start generating tweets first.".
Definition msg_posting : string := "🚀 Posting tweet...".
Definition msg_posted_shutdown : string := "✅ Tweet posted. Bot is shutting down.".
Definition msg_new_article : string := "🔍 Looking for a new article...".
Definition msg_cancelled : string := "👋 Tweet generation cancelled.".

Definition msg_options : string :=
  "Please choose one of the following options:" ++ newline
  ++ "- Type 'post' to publish the tweet" ++ newline
  ++ "- Type 'new' to generate a new tweet" ++ newline
  ++ "- Type 'exit' to cancel".

Definition msg_inactive : string :=
  "⏱️ Bot automatically shut down after 15 minutes of inactivity to free resources.".
Definition msg_started : string :=
  "🤖 Twitter bot started. Will automatically shut down after 15 minutes of inactivity to free resources.".

Section Bot.

Variable py_str : jvalue -> string.
Variable py_strip : string -> string.

Local Open Scope bot_scope.

(** [update_activity_timestamp()] *)
Definition update_activity_timestamp : M unit :=
  now <- ask time_time ;;
  write (set_last_activity_time (Some now)).

(** [fetch_tech_news()] run against the world. *)
Definition do_fetch_tech_news : M (option (list article)) :=
  emit requests_get ;;
  response <- ask news_api ;;
  lift (fetch_tech_news response).

(** [select_article(articles, used_indices)] run against the world. *)
Definition do_select_article (articles : option (list article))
    (used : list nat) : M (option (nat * string)) :=
  r <- ask random_draw ;;
  lift (select_article py_str articles (Some used) r).

(** [generate_tweet_text(article)] run against the world. *)
Definition do_generate_tweet_text (a : article) : M (option string) :=
  emit (requests_post a) ;;
  response <- ask gemini_api ;;
  lift (generate_tweet_text py_str py_strip a response).

(** [post_tweet(tweet_text)] run against the world. *)
Definition do_post_tweet (tweet_text : string) : M (bool * string) :=
  emit (create_tweet tweet_text) ;;
  err <- ask twitter_api ;;
  ret (post_tweet err).

(** [force_exit()]: [os._exit(0)] does not return. *)
Definition force_exit : M unit :=
  fun _ s => (Exit, mkSys (globals s) (log s ++ [os_exit]) (asked s) true).

(** [current_articles[selected_index]] *)
Definition getitem_article (articles : option (list article)) (i : nat) : M article :=
  match articles with
  | None => lift (Raise TypeError)
  | Some l =>
      match nth_error l i with
      | Some a => ret a
      | None => lift (Raise IndexError)
      end
  end.

Definition start : M unit :=
  update_activity_timestamp ;;
  emit (reply_text msg_welcome).

Definition help_command : M unit :=
  update_activity_timestamp ;;
  emit (reply_text msg_help).

Definition tweet_command : M unit :=
  update_activity_timestamp ;;
  emit (reply_text msg_looking) ;;
  articles <- read current_articles ;;
  (if negb (batch_truthy articles) then
     fetched <- do_fetch_tech_news ;;
     write (set_current_articles fetched) ;;
     write (set_used_indices [])
   else ret tt) ;;
  articles <- read current_articles ;;
  if negb (batch_truthy articles) then
    emit (reply_text msg_fetch_failed)
  else
    used <- read used_indices ;;
    result <- do_select_article articles used ;;
    result <- match result with
              | None =>
                  emit (reply_text msg_all_used) ;;
                  fetched <- do_fetch_tech_news ;;
                  write (set_current_articles fetched) ;;
                  write (set_used_indices []) ;;
                  do_select_article fetched []
              | Some _ => ret result
              end ;;
    match result with
    | None => emit (reply_text msg_refetch_failed)
    | Some (selected_index, info) =>
        used <- read used_indices ;;
        write (set_used_indices (used ++ [selected_index])) ;;
        articles <- read current_articles ;;
        selected <- getitem_article articles selected_index ;;
        write (set_current_article (Some selected)) ;;
        emit (reply_text info) ;;
        emit (reply_text msg_generating) ;;
        tweet <- do_generate_tweet_text selected ;;
        write (set_current_tweet tweet) ;;
        match tweet with
        | Some text =>
            if negb (text_truthy tweet) then
              emit (reply_text msg_generate_failed)
            else
              emit (reply_text (msg_preview text)) ;;
              emit (json_dump selected text) ;;
              update_activity_timestamp
        | None => emit (reply_text msg_generate_failed)
        end
    end.

Definition handle_message (message_text : string) : M unit :=
  update_activity_timestamp ;;
  tweet <- read current_tweet ;;
  match tweet with
  | None => emit (reply_text msg_use_tweet_first)
  | Some draft =>
      if negb (text_truthy tweet) then
        emit (reply_text msg_use_tweet_first)
      else
        let text := lower message_text in
        if (text =? "post")%string then
          emit (reply_text msg_posting) ;;
          ' (success, message) <- do_post_tweet draft ;;
          emit (reply_text message) ;;
          if success : bool then
            write (set_current_tweet None) ;;
            emit (reply_text msg_posted_shutdown) ;;
            emit (timer_start 2%Q cb_force_exit)
          else ret tt
        else if (text =? "new")%string then
          emit (reply_text msg_new_article) ;;
          tweet_command
        else if (text =? "exit")%string then
          emit (reply_text msg_cancelled) ;;
          write (set_current_tweet None) ;;
          emit (timer_start 2%Q cb_force_exit)
        else
          emit (reply_text msg_options)
  end.

(** [last_activity_time if last_activity_time else start_time] *)
Definition reference_time (g : Session) : option float :=
  if time_truthy (last_activity_time g) then last_activity_time g else start_time g.

Definition check_inactivity_timeout : M unit :=
  current_time <- ask time_time ;;
  g <- read (fun g => g) ;;
  match reference_time g with
  | None => lift (Raise TypeError)
  | Some reference =>
      let elapsed_time := float_sub current_time reference in
      if float_ge_int elapsed_time TIMEOUT_SECONDS then
        emit (send_telegram_message msg_inactive) ;;
        force_exit
      else
        emit (timer_start 30%Q cb_check_inactivity_timeout)
  end.

(** The part of [main()] that runs before polling starts. *)
Definition main : M unit :=
  t0 <- ask time_time ;;
  write (set_start_time (Some t0)) ;;
  t1 <- ask time_time ;;
  write (set_last_activity_time (Some t1)) ;;
  check_inactivity_timeout ;;
  emit (send_telegram_message msg_started).

(** ** The loop of [twitter_bot2.py]

    [articles] and [used_indices] are locals of [main]; one iteration
    returns their new values to go round again ([continue]), or [None]
    when the loop is left ([break], [return]).  [cli_draft] is the
    iteration from [used_indices.append(selected_index)] on. *)
Definition cli_draft (articles : option (list article)) (used : list nat)
    (selected_index : nat) : M (option (option (list article) * list nat)) :=
  let used := used ++ [selected_index] in
  selected_article <- getitem_article articles selected_index ;;
  tweet_text <- do_generate_tweet_text selected_article ;;
  match tweet_text with
  | None => ret (Some (articles, used))
  | Some text =>
      if negb (text_truthy tweet_text) then ret (Some (articles, used))
      else
        emit (json_dump selected_article text) ;;
        approval <- ask console_input ;;
        let approval := lower approval in
        if (approval =? "post")%string then
          do_post_tweet text ;;
          ret None
        else if (approval =? "new")%string then ret (Some (articles, used))
        else if (approval =? "exit")%string then ret None
        else ret (Some (articles, used))
  end.

Definition cli_iteration (articles : option (list article)) (used : list nat)
  : M (option (option (list article) * list nat)) :=
  r <- ask random_draw ;;
  selected_index <- lift (select_article_cli articles (Some used) r) ;;
  match selected_index with
  | Some i => cli_draft articles used i
  | None =>
      articles <- do_fetch_tech_news ;;
      if negb (batch_truthy articles) then ret None
      else
        r <- ask random_draw ;;
        selected_index <- lift (select_article_cli articles (Some []) r) ;;
        match selected_index with
        | Some i => cli_draft articles [] i
        | None => lift (Raise TypeError)
        end
  end.

(** ** The running process *)

Inductive input : Type :=
| cmd_start
| cmd_help
| cmd_tweet
| text_message (text : string)
| timer_fires (cb : callback).

Definition handler (i : input) : M unit :=
  match i with
  | cmd_start => start
  | cmd_help => help_command
  | cmd_tweet => tweet_command
  | text_message text => handle_message text
  | timer_fires cb_force_exit => force_exit
  | timer_fires cb_check_inactivity_timeout => check_inactivity_timeout
  end.

(** One event of the process: nothing runs once the process has exited;
    an exception of a handler is logged by the dispatcher and the process
    goes on with the globals as the handler left them. *)
Definition deliver (w : World) (s : Sys) (i : input) : Sys :=
  if exited s then s else snd (handler i w s).

Definition run (w : World) (s : Sys) (inputs : list input) : Sys :=
  fold_left (deliver w) inputs s.

End Bot.

Definition boot : Sys := mkSys initial_session [] 0 false.

(** ** Handlers of [twitter_bot4.py]

    The chat bot without the watchdog: the same handlers, none of which
    reads the clock. *)
Module Bot4.
Section Bot4.

Variable py_str : jvalue -> string.
Variable py_strip : string -> string.

Local Open Scope bot_scope.

Definition tweet_command : M unit :=
  emit (reply_text msg_looking) ;;
  articles <- read current_articles ;;
  (if negb (batch_truthy articles) then
     fetched <- do_fetch_tech_news ;;
     write (set_current_articles fetched) ;;
     write (set_used_indices [])
   else ret tt) ;;
  articles <- read current_articles ;;
  if negb (batch_truthy articles) then
    emit (reply_text msg_fetch_failed)
  else
    used <- read used_indices ;;
    result <- do_select_article py_str articles used ;;
    result <- match result with
              | None =>
                  emit (reply_text msg_all_used) ;;
                  fetched <- do_fetch_tech_news ;;
                  write (set_current_articles fetched) ;;
                  write (set_used_indices []) ;;
                  do_select_article py_str fetched []
              | Some _ => ret result
              end ;;
    match result with
    | None => emit (reply_text msg_refetch_failed)
    | Some (selected_index, info) =>
        used <- read used_indices ;;
        write (set_used_indices (used ++ [selected_index])) ;;
        articles <- read current_articles ;;
        selected <- getitem_article articles selected_index ;;
        write (set_current_article (Some selected)) ;;
        emit (reply_text info) ;;
        emit (reply_text msg_generating) ;;
        tweet <- do_generate_tweet_text py_str py_strip selected ;;
        write (set_current_tweet tweet) ;;
        match tweet with
        | Some text =>
            if negb (text_truthy tweet) then
              emit (reply_text msg_generate_failed)
            else
              emit (reply_text (msg_preview text)) ;;
              emit (json_dump selected text)
        | None => emit (reply_text msg_generate_failed)
        end
    end.

Definition handle_message (message_text : string) : M unit :=
  tweet <- read current_tweet ;;
  match tweet with
  | None => emit (reply_text msg_use_tweet_first)
  | Some draft =>
      if negb (text_truthy tweet) then
        emit (reply_text msg_use_tweet_first)
      else
        let text := lower message_text in
        if (text =? "post")%string then
          emit (reply_text msg_posting) ;;
          ' (success, message) <- do_post_tweet draft ;;
          emit (reply_text message) ;;
          if success : bool then
            write (set_current_tweet None) ;;
            emit (reply_text msg_posted_shutdown) ;;
            emit (timer_start 2%Q cb_force_exit)
          else ret tt
        else if (text =? "new")%string then
          emit (reply_text msg_new_article) ;;
          tweet_command
        else if (text =? "exit")%string then
          emit (reply_text msg_cancelled) ;;
          write (set_current_tweet None) ;;
          emit (timer_start 2%Q cb_force_exit)
        else
          emit (reply_text msg_options)
  end.

End Bot4.
End Bot4.

(** ** The HTTP trigger of [api/index.py]

    The stateless variant: one POST fetches, picks an article at random,
    drafts and publishes without approval.  The reply that the handler
    sends is the value of [do_POST]; the globals of the chat bot are not
    used. *)

(** [try: m except Exception as e: h e] *)
Definition try_except {A} (m : M A) (h : exn -> M A) : M A :=
  fun w s =>
    match m w s with
    | (Raised e, s') => h e w s'
    | r => r
    end.

(** [post_tweet] of [api/index.py], which has its own messages. *)
Definition api_post_tweet (create_tweet_error : option string) : bool * string :=
  match create_tweet_error with
  | None => (true, "Tweet posted successfully!")
  | Some msg => (false, ("Error posting tweet: " ++ msg)%string)
  end.

(** What the handler sends back: status 200 with the report, status 500
    with an error message, or status 404. *)
Inductive post_reply : Type :=
| reply_success (message : string) (article_title : jvalue) (tweet : string)
| reply_error (message : string)
| reply_not_found.

Definition reply_status (r : post_reply) : Z :=
  match r with
  | reply_success _ _ _ => 200%Z
  | reply_error _ => 500%Z
  | reply_not_found => 404%Z
  end.

(** The request: its path, and what [int(self.headers.get('Content-Length', 0))]
    did: [None] when it returned, [Some msg] when it raised an exception
    whose [str] is [msg]. *)
Record post_request : Type := mkRequest {
  request_path : string;
  content_length_error : option string
}.

Section Api.

Variable py_str : jvalue -> string.
Variable py_strip : string -> string.

(** [str(e)] *)
Variable exn_str : exn -> string.

Local Open Scope bot_scope.

Definition api_do_post_tweet (tweet_text : string) : M (bool * string) :=
  emit (create_tweet tweet_text) ;;
  err <- ask twitter_api ;;
  ret (api_post_tweet err).

(** The body of the [try] of [do_POST], after the header was read. *)
Definition post_tweet_flow : M post_reply :=
  articles <- do_fetch_tech_news ;;
  if negb (batch_truthy articles) then
    ret (reply_error "Failed to fetch news articles")
  else
    r <- ask random_draw ;;
    let n := match articles with Some l => List.length l | None => 0 end in
    selected_article <- getitem_article articles (r mod n) ;;
    tweet_text <- do_generate_tweet_text py_str py_strip selected_article ;;
    match tweet_text with
    | None => ret (reply_error "Failed to generate tweet text")
    | Some text =>
        if negb (text_truthy tweet_text) then
          ret (reply_error "Failed to generate tweet text")
        else
          ' (success, message) <- api_do_post_tweet text ;;
          if success : bool then
            ret (reply_success message (title selected_article) text)
          else ret (reply_error message)
    end.

Definition do_POST (request : post_request) : M post_reply :=
  if (request_path request =? "/api/post-tweet")%string then
    match content_length_error request with
    | Some msg => ret (reply_error msg)
    | None =>
        try_except post_tweet_flow (fun e => ret (reply_error (exn_str e)))
    end
  else ret reply_not_found.

End Api.

(** ** [main] of [twitter_bot2.py]

    The first fetch, then the [while True] loop; [fuel] bounds the number
    of rounds that a run of the model makes. *)
Fixpoint cli_loop (py_str : jvalue -> string) (py_strip : string -> string)
    (fuel : nat) (articles : option (list article)) (used : list nat) : M unit :=
  match fuel with
  | 0 => ret tt
  | S fuel' =>
      bind (cli_iteration py_str py_strip articles used)
           (fun next =>
              match next with
              | None => ret tt
              | Some (articles', used') => cli_loop py_str py_strip fuel' articles' used'
              end)
  end.

Definition cli_main (py_str : jvalue -> string) (py_strip : string -> string)
    (fuel : nat) : M unit :=
  bind do_fetch_tech_news
       (fun articles =>
          if negb (batch_truthy articles) then ret tt
          else cli_loop py_str py_strip fuel articles []).

(** The locals of the loop fit together: the used list has no duplicate
    and its indices are below the length of the batch. *)
Definition cli_state_ok (articles : option (list article)) (used : list nat) : Prop :=
  NoDup used /\
  match articles with
  | Some l => forall i, In i used -> i < List.length l
  | None => used = []
  end.

(** ** The protocol of a caller of the selection policy

    Each draw of [draws] is one call of [select_article]; a returned index
    is appended to [used] before the next call, as [tweet_command] and the
    command-line loop do. *)
Fixpoint select_repeatedly (py_str : jvalue -> string) (articles : list article)
    (used : list nat) (draws : list nat) : list (option nat) :=
  match draws with
  | [] => []
  | r :: rest =>
      match select_article py_str (Some articles) (Some used) r with
      | Return (Some (i, _)) => Some i :: select_repeatedly py_str articles (used ++ [i]) rest
      | _ => None :: select_repeatedly py_str articles used rest
      end
  end.

(** ** Vocabulary of the statements *)

(** The loop of [fetch_tech_news] without its filter: every raw article
    read into a record. *)
Fixpoint read_all (raws : list jvalue) : result (list article) :=
  match raws with
  | [] => Return []
  | raw :: rest =>
      (let? a := read_article raw in
       let? l := read_all rest in
       Return (a :: l))%result
  end.

Definition is_create_tweet (e : event) : bool :=
  match e with
  | create_tweet _ => true
  | _ => false
  end.

(** How many times the publisher was called. *)
Definition publish_calls (l : list event) : nat :=
  List.length (filter is_create_tweet l).

Definition is_cmd_tweet (i : input) : bool :=
  match i with
  | cmd_tweet => true
  | _ => false
  end.

(** A property of the last-activity timestamp, given how many questions the
    run has asked: it survives further questions, and it holds again after
    [update_activity_timestamp] stores the reading of the clock. *)
Class ActivityProperty (P : World -> nat -> option float -> Prop) : Prop := {
  survives_ask : forall w k t, P w k t -> P w (S k) t;
  survives_stamp : forall w k t, P w k t -> P w (S k) (Some (time_time w k))
}.

Definition holds (P : World -> nat -> option float -> Prop) (w : World) (s : Sys) : Prop :=
  P w (asked s) (last_activity_time (globals s)).

Definition preserves {A} (P : World -> nat -> option float -> Prop) (m : M A) : Prop :=
  forall w s, holds P w s -> holds P w (snd (m w s)).

(** The timestamp is a reading of the clock taken at question [k0] or later. *)
Definition stamped_since (k0 : nat) (w : World) (k : nat) (t : option float) : Prop :=
  exists j, k0 <= j < k /\ t = Some (time_time w j).

(** With a clock that never shows zero, the timestamp is set and not zero. *)
Definition activity_set (w : World) (k : nat) (t : option float) : Prop :=
  (forall i, float_truthy (time_time w i) = true) ->
  exists x, t = Some x /\ float_truthy x = true.

(** The session apart from the two clock fields. *)
Definition same_conversation (g g' : Session) : Prop :=
  current_articles g' = current_articles g /\
  used_indices g' = used_indices g /\
  current_article g' = current_article g /\
  current_tweet g' = current_tweet g.

(** The used list fits the batch held: its indices are below the length of
    the batch, and it is empty when [current_articles] is [None]. *)
Definition used_in_range (g : Session) : Prop :=
  match current_articles g with
  | Some l => forall i, In i (used_indices g) -> i < List.length l
  | None => used_indices g = []
  end.

(** Every call of the publisher in the log comes after a preview of the
    same text. *)
Definition previewed_before_publish (l : list event) : Prop :=
  forall l1 t l2,
    l = l1 ++ create_tweet t :: l2 -> In (reply_text (msg_preview t)) l1.

(** The draft held, if any, was shown in a preview. *)
Definition draft_was_previewed (s : Sys) : Prop :=
  forall t,
    current_tweet (globals s) = Some t -> t <> "" ->
    In (reply_text (msg_preview t)) (log s).

Definition preview_invariant (s : Sys) : Prop :=
  previewed_before_publish (log s) /\ draft_was_previewed s.

Definition is_requests_get (e : event) : bool :=
  match e with
  | requests_get => true
  | _ => false
  end.

Definition is_requests_post (e : event) : bool :=
  match e with
  | requests_post _ => true
  | _ => false
  end.

(** How many events of a kind a log holds. *)
Definition count_events (p : event -> bool) (l : list event) : nat :=
  List.length (filter p l).

(** The one event that reaches the publisher: ['post'], in any case, sent
    to a running process that holds a non-empty draft. *)
Definition is_post_to_draft (s : Sys) (i : input) : bool :=
  negb (exited s) &&
  match i with
  | text_message text =>
      (lower text =? "post")%string && text_truthy (current_tweet (globals s))
  | _ => false
  end.

(** [/start], [/help], [/tweet] and text messages, as opposed to timers. *)
Definition is_user_event (i : input) : bool :=
  match i with
  | timer_fires _ => false
  | _ => true
  end.

(** ** Sample payloads and worlds *)

Definition sample_raw (t d u : string) : jvalue :=
  JObj [("source", JObj [("id", JNull); ("name", JStr "The Wire")]);
        ("title", JStr t); ("description", JStr d); ("url", JStr u)].

Definition sample_news : http_result :=
  Response 200 (Some (JObj [("status", JStr "ok");
                            ("articles", JArr [sample_raw "Chips" "New chips" "http://a";
                                               sample_raw "" "No title" "http://b";
                                               sample_raw "Robots" "" "http://c"])])).


Definition sample_draft_reply : http_result :=
  Response 200 (Some (JObj [("candidates",
    JArr [JObj [("content", JObj [("parts", JArr [JObj [("text", JStr "Big news #AI")]])])]])])).

Definition sample_server_error : http_result := Response 500 None.

Definition sample_str (v : jvalue) : string :=
  match v with
  | JStr s => s
  | _ => "None"
  end.

Definition sample_strip (s : string) : string := s.

(** A clock that shows 1700000000.0 at first and one second more at each
    reading: the float [m * 2^-22] with [m = (1700000000 + k) * 2^22]. *)
Definition sample_clock (k : nat) : float :=
  S754_finite false (Z.to_pos ((1700000000 + Z.of_nat k) * 2 ^ 22)) (-22).

Definition sample_world (news gemini : http_result) (twitter : option string) : World :=
  mkWorld sample_clock
          (fun _ => news) (fun _ => gemini) (fun _ => twitter)
          (fun _ => 0) (fun _ => "new").

(** A clock near the start of the epoch: it reads 0.3 three times, then
    900.3.  As floats these are [5404319552844595 * 2^-54] and
    [7919122547893862 * 2^-43]. *)
Definition early_clock (k : nat) : float :=
  if k <? 3 then S754_finite false 5404319552844595 (-54)
  else S754_finite false 7919122547893862 (-43).

Definition early_world : World :=
  mkWorld early_clock
          (fun _ => sample_news) (fun _ => sample_draft_reply) (fun _ => None)
          (fun _ => 0) (fun _ => "new").

Definition sample_articles : list article :=
  [mkArticle (JStr "Chips") (JStr "New chips") (JStr "The Wire") (JStr "http://a");
   mkArticle (JStr "Robots") (JStr "") (JStr "The Wire") (JStr "http://c")].

(** A session that holds a draft of the first sample article. *)
Definition sample_session_with_draft : Sys :=
  mkSys (mkSession (Some sample_articles) [0] (nth_error sample_articles 0)
                   (Some "Big news #AI") (Some (sample_clock 0))
                   (Some (sample_clock 0)))
        [] 0 false.

(** * Properties *)

(** ** Selection policy *)

Lemma py_in_In (i : nat) (l : list nat) : py_in i l = true <-> In i l.
Proof.
  unfold py_in. rewrite existsb_exists. split.
  - intros [x [Hx Heq]]. apply Nat.eqb_eq in Heq. now subst.
  - intros H. exists i. split; [assumption | apply Nat.eqb_refl].
Qed.

Lemma In_available (n i : nat) (used : list nat) :
  In i (available_articles n used) <-> i < n /\ ~ In i used.
Proof.
  unfold available_articles. rewrite filter_In, in_seq, negb_true_iff.
  rewrite <- py_in_In. split.
  - intros [[_ Hlt] Hn]. split; [exact Hlt | congruence].
  - intros [Hlt Hn]. split; [lia | now destruct (py_in i used)].
Qed.

Lemma available_nil (n : nat) (used : list nat) :
  available_articles n used = [] <-> (forall i, i < n -> In i used).
Proof.
  split.
  - intros Hnil i Hlt.
    destruct (in_dec Nat.eq_dec i used) as [Hin | Hout]; [assumption |].
    assert (Hav : In i (available_articles n used)) by (apply In_available; auto).
    rewrite Hnil in Hav. contradiction.
  - intros Hall. destruct (available_articles n used) as [| i rest] eqn:E; [reflexivity |].
    assert (Hav : In i (available_articles n used)) by (rewrite E; now left).
    apply In_available in Hav. destruct Hav as [Hlt Hout]. now apply Hall in Hlt.
Qed.

Lemma random_choice_In (r : nat) (l : list nat) :
  l <> [] -> In (random_choice r l) l.
Proof.
  intros Hne. unfold random_choice. apply nth_In.
  apply Nat.mod_upper_bound. destruct l; [congruence | discriminate].
Qed.

Lemma length_0_nil {A} (l : list A) : Nat.eqb (List.length l) 0 = true <-> l = [].
Proof.
  rewrite Nat.eqb_eq. split.
  - apply length_zero_iff_nil.
  - intros ->. reflexivity.
Qed.

(** A used list shorter than the batch leaves an index available. *)
Lemma available_when_short (n : nat) (used : list nat) :
  List.length used < n -> available_articles n used <> [].
Proof.
  intros Hlen Hnil. rewrite available_nil in Hnil.
  assert (Hincl : incl (seq 0 n) used).
  { intros i Hi. apply in_seq in Hi. apply Hnil. lia. }
  apply (NoDup_incl_length (seq_NoDup n 0)) in Hincl.
  rewrite length_seq in Hincl. lia.
Qed.

(** What one call does, by cases on the remaining indices. *)
Lemma select_article_cases (py_str : jvalue -> string) (articles : list article)
    (used : list nat) (r : nat) :
  (available_articles (List.length articles) used = [] /\
   select_article py_str (Some articles) (Some used) r = Return None) \/
  (exists i info,
     select_article py_str (Some articles) (Some used) r = Return (Some (i, info)) /\
     i = random_choice r (available_articles (List.length articles) used) /\
     In i (available_articles (List.length articles) used)).
Proof.
  unfold select_article.
  destruct (Nat.eqb (List.length (available_articles (List.length articles) used)) 0) eqn:E.
  - left. apply length_0_nil in E. auto.
  - right.
    assert (Hne : available_articles (List.length articles) used <> []).
    { intros Hnil. apply length_0_nil in Hnil. congruence. }
    pose proof (random_choice_In r _ Hne) as Hin.
    pose proof Hin as Hin'. apply In_available in Hin'. destruct Hin' as [Hlt _].
    destruct (nth_error articles (random_choice r _)) as [a |] eqn:En.
    + eexists. eexists. repeat split. exact Hin.
    + apply nth_error_None in En. lia.
Qed.

(** The command-line variant returns the index the chat-bot variant returns. *)
Lemma select_article_cli_index (py_str : jvalue -> string)
    (articles : option (list article)) (used : option (list nat)) (r : nat) :
  select_article_cli articles used r =
  match select_article py_str articles used r with
  | Return (Some (i, _)) => Return (Some i)
  | Return None => Return None
  | Raise e => Raise e
  end.
Proof.
  unfold select_article_cli, select_article.
  destruct articles as [articles |]; [| reflexivity].
  destruct (Nat.eqb _ 0); [reflexivity |].
  now destruct (nth_error articles _).
Qed.

(** C1.  For every batch and every used list (also the default [None]),
    [select_article] returns [None] exactly when every index of the batch is
    used; otherwise it returns an index below the batch length that is not
    used, taken from the remaining indices.  The command-line variant
    returns the same index. *)
Theorem select_article_spec (py_str : jvalue -> string) (articles : list article)
    (used : option (list nat)) (r : nat) :
  let u := match used with Some u => u | None => [] end in
  let n := List.length articles in
  (select_article py_str (Some articles) used r = Return None
   <-> (forall i, i < n -> In i u)) /\
  ((exists i, i < n /\ ~ In i u) ->
   exists i info,
     select_article py_str (Some articles) used r = Return (Some (i, info)) /\
     select_article_cli (Some articles) used r = Return (Some i) /\
     i < n /\ ~ In i u /\ In i (available_articles n u)) /\
  (select_article_cli (Some articles) used r = Return None
   <-> (forall i, i < n -> In i u)).
Proof.
  intros u n. subst n.
  assert (Heq : select_article py_str (Some articles) used r
                = select_article py_str (Some articles) (Some u) r).
  { destruct used; reflexivity. }
  rewrite (select_article_cli_index py_str), Heq.
  destruct (select_article_cases py_str articles u r)
    as [[Hnil Hsel] | [i [info [Hsel [_ Hin]]]]]; rewrite Hsel.
  - pose proof (proj1 (available_nil _ _) Hnil) as Hall. repeat split; auto.
    intros [i [Hlt Hout]]. now apply Hall in Hlt.
  - destruct (proj1 (In_available _ _ _) Hin) as [Hlt Hout].
    repeat split; try discriminate.
    + intros Hall. now apply Hall in Hlt.
    + intros _. exists i, info. repeat split; auto.
    + intros Hall. now apply Hall in Hlt.
Qed.

(** *** Selection without replacement *)

Lemma select_repeatedly_distinct (py_str : jvalue -> string) (articles : list article)
    (draws : list nat) :
  forall used,
    NoDup used ->
    (forall i, In i used -> i < List.length articles) ->
    List.length used + List.length draws <= List.length articles ->
    exists idxs,
      select_repeatedly py_str articles used draws = map Some idxs /\
      List.length idxs = List.length draws /\
      NoDup (used ++ idxs) /\
      (forall i, In i (used ++ idxs) -> i < List.length articles).
Proof.
  induction draws as [| r rest IH]; intros used Hnd Hlt Hlen.
  - exists []. rewrite app_nil_r. auto.
  - simpl in Hlen. cbn [select_repeatedly].
    destruct (select_article_cases py_str articles used r)
      as [[Hnil _] | [i [info [Hsel [_ Hin]]]]].
    + exfalso. revert Hnil. apply available_when_short. lia.
    + rewrite Hsel. apply In_available in Hin. destruct Hin as [Hi Hout].
      destruct (IH (used ++ [i])) as [idxs [Hrun [Hl [Hnd' Hlt']]]].
      * apply NoDup_app; [assumption | repeat constructor; intros [] | ].
        intros x Hx [Hxi | []]. subst. contradiction.
      * intros x Hx. apply in_app_or in Hx. destruct Hx as [Hx | [Hx | []]]; subst; auto.
      * rewrite length_app. simpl. lia.
      * exists (i :: idxs). rewrite Hrun. simpl.
        rewrite <- app_assoc in Hnd', Hlt'. simpl in Hnd', Hlt'. auto.
Qed.

Lemma select_repeatedly_app (py_str : jvalue -> string) (articles : list article)
    (draws1 draws2 : list nat) :
  forall used idxs,
    select_repeatedly py_str articles used draws1 = map Some idxs ->
    select_repeatedly py_str articles used (draws1 ++ draws2)
    = map Some idxs ++ select_repeatedly py_str articles (used ++ idxs) draws2.
Proof.
  induction draws1 as [| r rest IH]; intros used idxs Hrun;
    cbn [select_repeatedly app] in *.
  - destruct idxs; [| discriminate]. now rewrite app_nil_r.
  - destruct (select_article py_str (Some articles) (Some used) r) as [[[i info] |] | e];
      destruct idxs as [| j idxs]; try discriminate.
    injection Hrun as Hj Hrun. subst j.
    rewrite (IH _ _ Hrun). simpl. now rewrite <- app_assoc.
Qed.

(** ** News source adapter *)

Lemma format_articles_filter (items : list jvalue) :
  forall acc out,
    format_articles items acc = Return out ->
    exists arts, read_all items = Return arts /\ out = acc ++ filter eligible arts.
Proof.
  induction items as [| raw rest IH]; intros acc out H; simpl in *.
  - injection H as <-. exists []. now rewrite app_nil_r.
  - destruct (read_article raw) as [a | e]; simpl in *; [| discriminate].
    destruct (eligible a) eqn:Ea; apply IH in H; destruct H as [arts [Hr ->]];
      exists (a :: arts); rewrite Hr; simpl; rewrite Ea; split; auto.
    now rewrite <- app_assoc.
Qed.

Lemma eligible_fields (a : article) :
  eligible a = true ->
  truthy (title a) = true /\
  (truthy (description a) = true \/ truthy (url a) = true).
Proof.
  unfold eligible. rewrite andb_true_iff, orb_true_iff. tauto.
Qed.

(** A batch that [fetch_tech_news] returns comes from a 200 answer whose
    article list was read and filtered by [eligible]. *)
Lemma fetch_tech_news_batch (response : http_result) (batch : list article) :
  fetch_tech_news response = Return (Some batch) ->
  exists data articles items arts,
    response = Response 200 (Some data) /\
    dict_get data "articles" (JArr []) = Return articles /\
    truthy articles = true /\
    py_iter articles = Return items /\
    read_all items = Return arts /\
    batch = filter eligible arts.
Proof.
  unfold fetch_tech_news. intros H.
  destruct response as [| status_code body]; [discriminate |].
  destruct (status_code =? 200)%Z eqn:Es; [| discriminate].
  apply Z.eqb_eq in Es. subst status_code.
  destruct body as [data |]; simpl in H; [| discriminate].
  destruct (dict_get data "articles" (JArr [])) as [articles | e] eqn:Eg;
    simpl in H; [| discriminate].
  destruct (truthy articles) eqn:Et; simpl in H; [| discriminate].
  destruct (py_iter articles) as [items | e] eqn:Ei; simpl in H; [| discriminate].
  destruct (format_articles items []) as [out | e] eqn:Ef; simpl in H; [| discriminate].
  injection H as <-.
  apply format_articles_filter in Ef. destruct Ef as [arts [Hr Hout]].
  exists data, articles, items, arts. simpl in Hout. repeat split; auto.
Qed.

(** C8.  Every item of a batch returned by [fetch_tech_news] has a truthy
    (for a string: non-empty) title and a truthy description or a truthy
    url; the batch is exactly the raw articles of the answer that pass this
    test, in their order, so the others are left out. *)
Theorem fetch_tech_news_keeps_eligible (response : http_result) (batch : list article) :
  fetch_tech_news response = Return (Some batch) ->
  (forall a, In a batch ->
     truthy (title a) = true /\
     (truthy (description a) = true \/ truthy (url a) = true) /\
     title a <> JStr "" /\ title a <> JNull) /\
  (exists data articles items arts,
     response = Response 200 (Some data) /\
     dict_get data "articles" (JArr []) = Return articles /\
     py_iter articles = Return items /\
     read_all items = Return arts /\
     batch = filter eligible arts /\
     (forall a, In a arts -> eligible a = false -> ~ In a batch)).
Proof.
  intros H. apply fetch_tech_news_batch in H.
  destruct H as [data [articles [items [arts [Hresp [Hget [_ [Hiter [Hread Hbatch]]]]]]]]].
  split.
  - intros a Ha. subst batch. apply filter_In in Ha. destruct Ha as [_ Ha].
    apply eligible_fields in Ha. destruct Ha as [Ht Hdu].
    repeat split; auto; intros Heq; rewrite Heq in Ht; discriminate.
  - exists data, articles, items, arts. repeat split; auto.
    intros a _ Hno Hin. subst batch. apply filter_In in Hin. destruct Hin as [_ Hin].
    congruence.
Qed.

Lemma fetch_tech_news_keeps_eligible_witness :
  fetch_tech_news sample_news = Return (Some sample_articles) /\
  forall a, In a sample_articles ->
    truthy (title a) = true /\
    (truthy (description a) = true \/ truthy (url a) = true) /\
    title a <> JStr "" /\ title a <> JNull.
Proof.
  split; [reflexivity |].
  apply (fetch_tech_news_keeps_eligible sample_news sample_articles). reflexivity.
Defined.

(** ** Running handlers *)

Arguments fetch_tech_news : simpl never.
Arguments select_article : simpl never.
Arguments select_article_cli : simpl never.
Arguments generate_tweet_text : simpl never.
Arguments batch_truthy : simpl never.
Arguments text_truthy : simpl never.

(** Unfolds a handler down to the state it computes. *)
Ltac run_handler :=
  unfold tweet_command, handle_message, start, help_command, check_inactivity_timeout,
    main, cli_iteration, cli_draft, update_activity_timestamp, do_fetch_tech_news,
    do_select_article, do_generate_tweet_text, do_post_tweet, getitem_article,
    force_exit, reference_time, bind, ret, read, write, emit, ask, lift;
  cbn [fst snd globals log asked exited].

Lemma publish_calls_app (l l' : list event) :
  publish_calls (l ++ l') = publish_calls l + publish_calls l'.
Proof. unfold publish_calls. now rewrite filter_app, length_app. Qed.

(** A text message that arrives while no draft is held. *)
Lemma handle_message_without_draft (py_str : jvalue -> string) (py_strip : string -> string)
    (w : World) (s : Sys) (text : string) :
  text_truthy (current_tweet (globals s)) = false ->
  handle_message py_str py_strip text w s =
  (Done tt,
   mkSys (set_last_activity_time (Some (time_time w (asked s))) (globals s))
         (log s ++ [reply_text msg_use_tweet_first])
         (S (asked s)) (exited s)).
Proof.
  intros Hno. destruct s as [g l k ex]. run_handler.
  cbn [set_last_activity_time current_tweet]. cbn [globals] in Hno.
  destruct (current_tweet g) as [draft |]; [| reflexivity].
  rewrite Hno. reflexivity.
Qed.

(** ** Preservation of a property of the timestamp *)

Section Preservation.

Variable P : World -> nat -> option float -> Prop.
Context {HP : ActivityProperty P}.

Lemma preserves_ret {A} (a : A) : preserves P (ret a).
Proof. intros w s H. exact H. Qed.

Lemma preserves_lift {A} (r : result A) : preserves P (lift r).
Proof. intros w s H. unfold lift. now destruct r. Qed.

Lemma preserves_read {A} (field : Session -> A) : preserves P (read field).
Proof. intros w s H. exact H. Qed.

Lemma preserves_emit (e : event) : preserves P (emit e).
Proof. intros w s H. exact H. Qed.

Lemma preserves_ask {A} (oracle : World -> nat -> A) : preserves P (ask oracle).
Proof. intros w s H. unfold holds in *. simpl. now apply survives_ask. Qed.

Lemma preserves_write (f : Session -> Session) :
  (forall g, last_activity_time (f g) = last_activity_time g) ->
  preserves P (write f).
Proof. intros Hf w s H. unfold holds in *. simpl. now rewrite Hf. Qed.

Lemma preserves_force_exit : preserves P force_exit.
Proof. intros w s H. exact H. Qed.

Lemma preserves_bind {A B} (m : M A) (k : A -> M B) :
  preserves P m -> (forall a, preserves P (k a)) -> preserves P (bind m k).
Proof.
  intros Hm Hk w s H. unfold bind. specialize (Hm w s H).
  destruct (m w s) as [[a | e |] s']; simpl in *; auto.
  now apply Hk.
Qed.

Lemma preserves_update_activity_timestamp : preserves P update_activity_timestamp.
Proof.
  intros w s H. unfold holds in *. run_handler. simpl.
  eapply survives_stamp. exact H.
Qed.

(** Structural steps of a proof that a handler preserves [P]. *)
Ltac preserve :=
  repeat first
    [ match goal with
      | H : forall _ _, preserves _ _ |- _ => apply H
      end
    | apply preserves_update_activity_timestamp
    | apply preserves_force_exit
    | apply preserves_ret
    | apply preserves_lift
    | apply preserves_read
    | apply preserves_emit
    | apply preserves_ask
    | apply preserves_write; reflexivity
    | apply preserves_bind
    | match goal with
      | |- forall _, _ => intro
      | |- preserves _ (match ?x with _ => _ end) => destruct x
      end ].

Lemma preserves_tweet_command (py_str : jvalue -> string) (py_strip : string -> string) :
  preserves P (tweet_command py_str py_strip).
Proof.
  unfold tweet_command, do_fetch_tech_news, do_select_article,
    do_generate_tweet_text, getitem_article.
  preserve.
Qed.

Lemma preserves_handle_message (py_str : jvalue -> string) (py_strip : string -> string)
    (text : string) :
  preserves P (handle_message py_str py_strip text).
Proof.
  pose proof preserves_tweet_command as Htweet.
  unfold handle_message, do_post_tweet.
  preserve.
Qed.

Lemma preserves_check_inactivity_timeout : preserves P check_inactivity_timeout.
Proof. unfold check_inactivity_timeout. preserve. Qed.

Lemma preserves_handler (py_str : jvalue -> string) (py_strip : string -> string)
    (i : input) :
  preserves P (handler py_str py_strip i).
Proof.
  destruct i as [| | | text | []]; simpl.
  - unfold start. preserve.
  - unfold help_command. preserve.
  - apply preserves_tweet_command.
  - apply preserves_handle_message.
  - apply preserves_force_exit.
  - apply preserves_check_inactivity_timeout.
Qed.

(** A handler that begins with [update_activity_timestamp] ends in a
    state where [P] holds as soon as [P] holds of the fresh reading. *)
Lemma after_update {A} (rest : unit -> M A) (w : World) (s : Sys) :
  preserves P (rest tt) ->
  P w (S (asked s)) (Some (time_time w (asked s))) ->
  holds P w (snd (bind update_activity_timestamp rest w s)).
Proof.
  intros Hrest Hnow. unfold bind at 1.
  unfold update_activity_timestamp, bind, ask, write. cbn [fst snd].
  apply Hrest. exact Hnow.
Qed.

Lemma stamp_start (w : World) (s : Sys) :
  P w (S (asked s)) (Some (time_time w (asked s))) ->
  holds P w (snd (start w s)).
Proof. apply after_update. preserve. Qed.

Lemma stamp_help_command (w : World) (s : Sys) :
  P w (S (asked s)) (Some (time_time w (asked s))) ->
  holds P w (snd (help_command w s)).
Proof. apply after_update. preserve. Qed.

Lemma stamp_tweet_command (py_str : jvalue -> string) (py_strip : string -> string)
    (w : World) (s : Sys) :
  P w (S (asked s)) (Some (time_time w (asked s))) ->
  holds P w (snd (tweet_command py_str py_strip w s)).
Proof.
  apply after_update.
  unfold do_fetch_tech_news, do_select_article, do_generate_tweet_text, getitem_article.
  preserve.
Qed.

Lemma stamp_handle_message (py_str : jvalue -> string) (py_strip : string -> string)
    (text : string) (w : World) (s : Sys) :
  P w (S (asked s)) (Some (time_time w (asked s))) ->
  holds P w (snd (handle_message py_str py_strip text w s)).
Proof.
  pose proof preserves_tweet_command as Htweet.
  apply after_update. unfold do_post_tweet. preserve.
Qed.

Lemma preserves_run (py_str : jvalue -> string) (py_strip : string -> string)
    (w : World) (inputs : list input) :
  forall s, holds P w s -> holds P w (run py_str py_strip w s inputs).
Proof.
  induction inputs as [| i rest IH]; intros s H; simpl; [exact H |].
  apply IH. unfold deliver. destruct (exited s); [exact H |].
  now apply preserves_handler.
Qed.

End Preservation.

#[global] Instance stamped_since_property (k0 : nat) : ActivityProperty (stamped_since k0).
Proof.
  split.
  - intros w k t [j [Hj Ht]]. exists j. split; [lia | exact Ht].
  - intros w k t [j [Hj _]]. exists k. split; [lia | reflexivity].
Qed.

#[global] Instance activity_set_property : ActivityProperty activity_set.
Proof.
  split.
  - intros w k t H. exact H.
  - intros w k t _ Hpos. exists (time_time w k). split; [reflexivity | apply Hpos].
Qed.

Lemma stamped_now (w : World) (k : nat) :
  stamped_since k w (S k) (Some (time_time w k)).
Proof. exists k. split; [lia | reflexivity]. Qed.

(** ** Activity tracking *)

(** C6.  Each of [/start], [/help], [/tweet] and every text message leaves
    the last-activity timestamp equal to a reading of the clock taken while
    the event was handled, whatever the adapters answer and also when the
    handler raises. *)
Theorem every_user_event_updates_activity (py_str : jvalue -> string)
    (py_strip : string -> string) (w : World) (s : Sys) :
  holds (stamped_since (asked s)) w (snd (start w s)) /\
  holds (stamped_since (asked s)) w (snd (help_command w s)) /\
  holds (stamped_since (asked s)) w (snd (tweet_command py_str py_strip w s)) /\
  (forall text,
     holds (stamped_since (asked s)) w (snd (handle_message py_str py_strip text w s))).
Proof.
  repeat split; intros.
  - apply stamp_start; first [apply stamped_now | exact _].
  - apply stamp_help_command; first [apply stamped_now | exact _].
  - apply stamp_tweet_command; first [apply stamped_now | exact _].
  - apply stamp_handle_message; first [apply stamped_now | exact _].
Qed.

(** ** Inactivity watchdog *)

Lemma reference_time_activity (g : Session) (t : float) :
  last_activity_time g = Some t -> float_truthy t = true -> reference_time g = Some t.
Proof.
  intros Ht Hnz. unfold reference_time. rewrite Ht. cbn [time_truthy].
  now rewrite Hnz.
Qed.

(** One tick of the watchdog, by the outcome of its comparison. *)
Lemma check_inactivity_timeout_run (w : World) (s : Sys) (t : float) :
  reference_time (globals s) = Some t ->
  check_inactivity_timeout w s =
  if float_ge_int (float_sub (time_time w (asked s)) t) TIMEOUT_SECONDS
  then (Exit, mkSys (globals s)
                    (log s ++ [send_telegram_message msg_inactive; os_exit])
                    (S (asked s)) true)
  else (Done tt, mkSys (globals s)
                       (log s ++ [timer_start 30%Q cb_check_inactivity_timeout])
                       (S (asked s)) (exited s)).
Proof.
  intros Href. destruct s as [g l k ex]. cbn [globals] in Href.
  unfold check_inactivity_timeout, bind, ask, read, emit, force_exit.
  cbn [fst snd globals log asked exited]. rewrite Href.
  destruct (float_ge_int (float_sub (time_time w k) t) TIMEOUT_SECONDS);
    cbn [fst snd globals log asked exited]; [| reflexivity].
  now rewrite <- app_assoc.
Qed.

(** C5, as the specification words it, fails.  The clock reads 0.3 while
    [main()] runs and 900.3 at the next tick.  The two readings are less than
    900 seconds apart, by [819 / 2^54] of a second, but their difference as
    floats is 900.0, and the tick ends the process. *)
Lemma rounded_difference_reaches_timeout :
  let w := early_world in
  let s := snd (main w boot) in
  let t := early_clock 1 in
  let now := early_clock 3 in
  exited s = false /\
  last_activity_time (globals s) = Some t /\
  time_time w (asked s) = now /\
  (exists a b, float_value now = Some a /\ float_value t = Some b /\
               (a - b < inject_Z TIMEOUT_SECONDS)%Q /\
               (a - b == 900 - 819 / 2 ^ 54)%Q) /\
  float_sub now t = float_of_int 900 /\
  fst (check_inactivity_timeout w s) = Exit.
Proof.
  cbv zeta. repeat split; try (vm_compute; reflexivity).
  eexists. eexists. split; [reflexivity |]. split; [reflexivity |].
  split; vm_compute; reflexivity.
Qed.

(** C5, amended.  [TIMEOUT_SECONDS] is 900.  With the last-activity
    timestamp set and not zero, a tick of the watchdog ends the process
    exactly when the float difference [current_time - last_activity_time],
    the one line 373 computes, is at least [TIMEOUT_SECONDS]; then it sends
    the notice and exits.  Otherwise it only starts the next 30-second timer
    and leaves every global, the last-activity timestamp included, as it
    was. *)
Theorem check_inactivity_timeout_spec (w : World) (s : Sys) (t : float) :
  last_activity_time (globals s) = Some t ->
  float_truthy t = true ->
  let current_time := time_time w (asked s) in
  let elapsed_time := float_sub current_time t in
  let tick := check_inactivity_timeout w s in
  TIMEOUT_SECONDS = 900%Z /\
  (fst tick = Exit <-> float_ge_int elapsed_time TIMEOUT_SECONDS = true) /\
  (float_ge_int elapsed_time TIMEOUT_SECONDS = true ->
   tick = (Exit, mkSys (globals s)
                       (log s ++ [send_telegram_message msg_inactive; os_exit])
                       (S (asked s)) true)) /\
  (float_ge_int elapsed_time TIMEOUT_SECONDS = false ->
   tick = (Done tt, mkSys (globals s)
                          (log s ++ [timer_start 30%Q cb_check_inactivity_timeout])
                          (S (asked s)) (exited s)) /\
   last_activity_time (globals (snd tick)) = Some t).
Proof.
  intros Ht Hnz current_time elapsed_time tick. subst current_time elapsed_time tick.
  rewrite (check_inactivity_timeout_run w s t (reference_time_activity _ _ Ht Hnz)).
  split; [reflexivity |].
  destruct (float_ge_int (float_sub (time_time w (asked s)) t) TIMEOUT_SECONDS) eqn:E.
  - repeat split; auto; discriminate.
  - repeat split; try reflexivity; try discriminate; try exact Ht.
Qed.

Lemma check_inactivity_timeout_spec_witness :
  let w := sample_world sample_news sample_draft_reply None in
  fst (check_inactivity_timeout w sample_session_with_draft) = Done tt /\
  fst (check_inactivity_timeout w
         (mkSys (globals sample_session_with_draft) [] 900 false)) = Exit.
Proof.
  intros w.
  destruct (check_inactivity_timeout_spec w sample_session_with_draft
              (sample_clock 0) eq_refl eq_refl) as [_ [_ [_ Hbelow]]].
  destruct (check_inactivity_timeout_spec w
              (mkSys (globals sample_session_with_draft) [] 900 false)
              (sample_clock 0) eq_refl eq_refl) as [_ [_ [Habove _]]].
  split.
  - destruct Hbelow as [Hbelow _]; [vm_compute; reflexivity |].
    rewrite Hbelow. reflexivity.
  - rewrite Habove; [reflexivity | vm_compute; reflexivity].
Defined.

(** After [main()] and any events, under a clock that never shows zero, the
    last-activity timestamp is set and is not zero, so the watchdog measures
    from it. *)
Lemma activity_time_always_set (py_str : jvalue -> string) (py_strip : string -> string)
    (w : World) (inputs : list input) :
  (forall i, float_truthy (time_time w i) = true) ->
  exists t,
    last_activity_time (globals (run py_str py_strip w (snd (main w boot)) inputs)) = Some t /\
    float_truthy t = true.
Proof.
  intros Hpos.
  assert (H : holds activity_set w (run py_str py_strip w (snd (main w boot)) inputs)).
  { apply preserves_run; [exact _ |].
    unfold main. unfold bind at 1 2 3 4. unfold ask at 1 2, write at 1 2.
    cbn [fst snd].
    apply preserves_bind.
    - apply preserves_check_inactivity_timeout. exact _.
    - intros []. apply preserves_emit.
    - intros _. eexists. split; [reflexivity | apply Hpos]. }
  exact (H Hpos).
Qed.

(** ** Messages that arrive while no draft is held *)

(** C10.  A text message handled while [current_tweet] is [None] (or empty)
    gets the reply to use /tweet first and the handler returns: the log
    gains that reply and nothing else, so neither the publisher nor the
    draft generator is called, and the session is as before apart from the
    last-activity timestamp.  The handler of [twitter_bot4.py], which has no
    timestamp, leaves the whole session as it was. *)
Theorem handle_message_guard (py_str : jvalue -> string) (py_strip : string -> string)
    (w : World) (s : Sys) (text : string) :
  text_truthy (current_tweet (globals s)) = false ->
  let s' := snd (handle_message py_str py_strip text w s) in
  fst (handle_message py_str py_strip text w s) = Done tt /\
  log s' = log s ++ [reply_text msg_use_tweet_first] /\
  publish_calls (log s') = publish_calls (log s) /\
  globals s' = set_last_activity_time (Some (time_time w (asked s))) (globals s) /\
  same_conversation (globals s) (globals s') /\
  start_time (globals s') = start_time (globals s) /\
  exited s' = exited s /\
  Bot4.handle_message py_str py_strip text w s
  = (Done tt, mkSys (globals s) (log s ++ [reply_text msg_use_tweet_first])
                    (asked s) (exited s)).
Proof.
  intros Hno s'. subst s'.
  rewrite (handle_message_without_draft py_str py_strip w s text Hno).
  cbn [fst snd globals log asked exited].
  repeat split.
  - rewrite publish_calls_app. cbn. lia.
  - destruct s as [g l k ex]. cbn [globals] in Hno.
    unfold Bot4.handle_message, bind, read, emit. cbn [fst snd globals log asked exited].
    destruct (current_tweet g) as [draft |]; [| reflexivity].
    rewrite Hno. reflexivity.
Qed.

Lemma handle_message_guard_witness :
  fst (handle_message sample_str sample_strip "post"
         (sample_world sample_news sample_draft_reply None) boot) = Done tt /\
  publish_calls
    (log (snd (handle_message sample_str sample_strip "post"
                 (sample_world sample_news sample_draft_reply None) boot))) = 0.
Proof.
  destruct (handle_message_guard sample_str sample_strip
              (sample_world sample_news sample_draft_reply None) boot "post" eq_refl)
    as [Hdone [_ [Hcalls _]]].
  split; [exact Hdone | exact Hcalls].
Defined.

(** ** After a successful post *)

(** ['post'] while a draft is held and [create_tweet] returns. *)
Lemma handle_message_post_success (py_str : jvalue -> string) (py_strip : string -> string)
    (w : World) (s : Sys) (text draft : string) :
  current_tweet (globals s) = Some draft ->
  draft <> "" ->
  lower text = "post" ->
  twitter_api w (S (asked s)) = None ->
  handle_message py_str py_strip text w s =
  (Done tt,
   mkSys (set_current_tweet None
            (set_last_activity_time (Some (time_time w (asked s))) (globals s)))
         (log s ++ [reply_text msg_posting; create_tweet draft;
                    reply_text "✅ Tweet posted successfully!";
                    reply_text msg_posted_shutdown; timer_start 2%Q cb_force_exit])
         (S (S (asked s))) (exited s)).
Proof.
  intros Hdraft Hne Hpost Hok. destruct s as [g l k ex].
  cbn [globals asked] in Hdraft, Hok.
  run_handler. cbn [set_last_activity_time current_tweet]. rewrite Hdraft.
  unfold text_truthy. apply String.eqb_neq in Hne. rewrite Hne. cbn [negb].
  rewrite Hpost. cbn [String.eqb Ascii.eqb Bool.eqb andb]. cbn [fst snd globals log asked exited].
  rewrite Hok. cbn [post_tweet fst snd globals log asked exited].
  now rewrite <- !app_assoc.
Qed.

(** With no draft held, an event other than [/tweet] neither creates a draft
    nor calls the publisher. *)
Lemma deliver_without_draft (py_str : jvalue -> string) (py_strip : string -> string)
    (w : World) (s : Sys) (i : input) :
  is_cmd_tweet i = false ->
  current_tweet (globals s) = None ->
  current_tweet (globals (deliver py_str py_strip w s i)) = None /\
  publish_calls (log (deliver py_str py_strip w s i)) = publish_calls (log s).
Proof.
  intros Hi Hnone. unfold deliver. destruct (exited s) eqn:Eex; [auto |].
  destruct i as [| | | text | []]; try discriminate; cbn [handler].
  - destruct s as [g l k ex]. run_handler.
    rewrite publish_calls_app. cbn in *. split; [exact Hnone | lia].
  - destruct s as [g l k ex]. run_handler.
    rewrite publish_calls_app. cbn in *. split; [exact Hnone | lia].
  - rewrite handle_message_without_draft by (rewrite Hnone; reflexivity).
    cbn [snd globals log]. rewrite publish_calls_app. cbn. split; [exact Hnone | lia].
  - unfold force_exit. cbn [snd globals log]. rewrite publish_calls_app.
    cbn. split; [exact Hnone | lia].
  - destruct (reference_time (globals s)) as [t |] eqn:Eref.
    + rewrite (check_inactivity_timeout_run w s t Eref).
      destruct (float_ge_int _ _); cbn [snd globals log]; rewrite publish_calls_app;
        cbn; split; auto; lia.
    + destruct s as [g l k ex]. cbn [globals] in Eref, Hnone.
      unfold check_inactivity_timeout, bind, ask, read, lift.
      cbn [fst snd globals log asked exited]. rewrite Eref. cbn. auto.
Qed.

Lemma run_without_draft (py_str : jvalue -> string) (py_strip : string -> string)
    (w : World) (inputs : list input) :
  forall s,
    forallb (fun i => negb (is_cmd_tweet i)) inputs = true ->
    current_tweet (globals s) = None ->
    current_tweet (globals (run py_str py_strip w s inputs)) = None /\
    publish_calls (log (run py_str py_strip w s inputs)) = publish_calls (log s).
Proof.
  induction inputs as [| i rest IH]; intros s Hall Hnone; [auto |].
  change (run py_str py_strip w s (i :: rest))
    with (run py_str py_strip w (deliver py_str py_strip w s i) rest).
  cbn [forallb] in Hall. apply andb_true_iff in Hall. destruct Hall as [Hi Hrest].
  apply negb_true_iff in Hi.
  destruct (deliver_without_draft py_str py_strip w s i Hi Hnone) as [Hnone' Hcalls].
  destruct (IH _ Hrest Hnone') as [Hfinal Hcount].
  split; [exact Hfinal | now rewrite Hcount].
Qed.

Lemma run_exited (py_str : jvalue -> string) (py_strip : string -> string)
    (w : World) (inputs : list input) :
  forall s, exited s = true -> run py_str py_strip w s inputs = s.
Proof.
  induction inputs as [| i rest IH]; intros s Hex; [reflexivity |].
  change (run py_str py_strip w s (i :: rest))
    with (run py_str py_strip w (deliver py_str py_strip w s i) rest).
  unfold deliver. rewrite Hex. apply IH. exact Hex.
Qed.

Lemma deliver_force_exit (py_str : jvalue -> string) (py_strip : string -> string)
    (w : World) (s : Sys) :
  exited (deliver py_str py_strip w s (timer_fires cb_force_exit)) = true.
Proof.
  unfold deliver. destruct (exited s) eqn:E; [exact E | reflexivity].
Qed.

(** Against C7 as stated: a draft is held and ['post'] publishes it.  Before
    the 2-second timer fires, [/tweet] is handled as ever and drafts the
    other article, and a second ['post'] publishes that draft too: the
    publisher has been called twice and the process is still running. *)
Lemma second_post_is_processed :
  let w := sample_world sample_news sample_draft_reply None in
  let s1 := deliver sample_str sample_strip w sample_session_with_draft
              (text_message "post") in
  let s2 := deliver sample_str sample_strip w s1 cmd_tweet in
  let s3 := deliver sample_str sample_strip w s2 (text_message "post") in
  current_tweet (globals s1) = None /\
  publish_calls (log s1) = 1 /\
  In (timer_start 2%Q cb_force_exit) (log s1) /\
  text_truthy (current_tweet (globals s2)) = true /\
  publish_calls (log s3) = 2 /\
  exited s3 = false /\
  (forall draft, current_tweet (globals s2) = Some draft ->
                 In (create_tweet draft) (log s3)).
Proof.
  intros w s1 s2 s3. repeat split; try (vm_compute; reflexivity).
  - vm_compute. tauto.
  - intros draft Hdraft. vm_compute in Hdraft. injection Hdraft as <-.
    vm_compute. tauto.
Qed.

(** C7, amended.  After ['post'] with a held draft and a publish call that
    succeeds, the draft is cleared and the 2-second timer of [force_exit]
    is started; when that timer fires the process has exited and handles
    nothing more.  Until then events are still handled: whatever events
    other than a [/tweet] command arrive, no draft is held and the
    publisher is not called again, and every text message (a second
    ['post'] included) is answered with the prompt to use /tweet first. *)
Theorem post_success_is_terminal (py_str : jvalue -> string) (py_strip : string -> string)
    (w : World) (s : Sys) (text draft : string) :
  exited s = false ->
  current_tweet (globals s) = Some draft ->
  draft <> "" ->
  lower text = "post" ->
  twitter_api w (S (asked s)) = None ->
  let s1 := deliver py_str py_strip w s (text_message text) in
  current_tweet (globals s1) = None /\
  log s1 = log s ++ [reply_text msg_posting; create_tweet draft;
                     reply_text "✅ Tweet posted successfully!";
                     reply_text msg_posted_shutdown; timer_start 2%Q cb_force_exit] /\
  (forall later,
     forallb (fun i => negb (is_cmd_tweet i)) later = true ->
     let s2 := run py_str py_strip w s1 later in
     current_tweet (globals s2) = None /\
     publish_calls (log s2) = publish_calls (log s1) /\
     (forall message,
        exited s2 = false ->
        log (deliver py_str py_strip w s2 (text_message message))
        = log s2 ++ [reply_text msg_use_tweet_first]) /\
     (let s3 := deliver py_str py_strip w s2 (timer_fires cb_force_exit) in
      exited s3 = true /\ forall more, run py_str py_strip w s3 more = s3)).
Proof.
  intros Hrun Hdraft Hne Hpost Hok s1.
  assert (Hs1 : s1 = snd (handle_message py_str py_strip text w s)).
  { subst s1. unfold deliver. now rewrite Hrun. }
  rewrite (handle_message_post_success py_str py_strip w s text draft Hdraft Hne Hpost Hok)
    in Hs1.
  cbn [snd] in Hs1.
  assert (Hnone : current_tweet (globals s1) = None) by (rewrite Hs1; reflexivity).
  split; [exact Hnone |]. split; [rewrite Hs1; reflexivity |].
  intros later Hlater s2.
  destruct (run_without_draft py_str py_strip w later s1 Hlater Hnone) as [Hnone2 Hcalls].
  fold s2 in Hnone2, Hcalls.
  split; [exact Hnone2 |]. split; [exact Hcalls |]. split.
  - intros message Hlive. unfold deliver. rewrite Hlive. cbn [handler].
    rewrite handle_message_without_draft; [reflexivity |].
    rewrite Hnone2. reflexivity.
  - split; [apply deliver_force_exit |].
    intros more. apply run_exited, deliver_force_exit.
Qed.

Lemma post_success_is_terminal_witness :
  let w := sample_world sample_news sample_draft_reply None in
  let s1 := deliver sample_str sample_strip w sample_session_with_draft (text_message "Post") in
  current_tweet (globals s1) = None /\
  publish_calls (log s1) = 1 /\
  publish_calls
    (log (run sample_str sample_strip w s1
            [text_message "post"; cmd_help; text_message "POST"])) = 1.
Proof.
  intros w s1.
  assert (Hne : "Big news #AI" <> "") by discriminate.
  destruct (post_success_is_terminal sample_str sample_strip w sample_session_with_draft
              "Post" "Big news #AI" eq_refl eq_refl Hne eq_refl eq_refl)
    as [Hcleared [Hlog Hlater]].
  destruct (Hlater [text_message "post"; cmd_help; text_message "POST"] eq_refl)
    as [_ [Hcalls _]].
  split; [exact Hcleared |]. split.
  - subst s1. rewrite Hlog. reflexivity.
  - subst s1. rewrite Hcalls, Hlog. reflexivity.
Defined.

(** ** Adapter failures *)


(** [/tweet] with a batch that still has an unused article, when
    [generate_tweet_text] returns [None]. *)
Lemma tweet_command_draft_failed (py_str : jvalue -> string) (py_strip : string -> string)
    (w : World) (s : Sys) (articles : list article) (i : nat) (info : string) (a : article) :
  current_articles (globals s) = Some articles ->
  select_article py_str (Some articles) (Some (used_indices (globals s)))
    (random_draw w (S (asked s))) = Return (Some (i, info)) ->
  nth_error articles i = Some a ->
  generate_tweet_text py_str py_strip a (gemini_api w (S (S (asked s)))) = Return None ->
  tweet_command py_str py_strip w s =
  (Done tt,
   mkSys (set_current_tweet None (set_current_article (Some a)
            (set_used_indices (used_indices (globals s) ++ [i])
               (set_last_activity_time (Some (time_time w (asked s))) (globals s)))))
         (log s ++ [reply_text msg_looking; reply_text info; reply_text msg_generating;
                    requests_post a; reply_text msg_generate_failed])
         (S (S (S (asked s)))) (exited s)).
Proof.
  intros Hbatch Hsel Hnth Hgen. destruct s as [g l k ex]. simpl in *.
  assert (Htruthy : batch_truthy (Some articles) = true).
  { destruct articles; [destruct i; discriminate | reflexivity]. }
  run_handler. simpl. rewrite Hbatch, Htruthy. simpl.
  rewrite Hbatch, Htruthy. simpl. rewrite Hsel. simpl.
  rewrite Hbatch, Hnth. simpl. rewrite Hgen. simpl.
  now rewrite <- !app_assoc.
Qed.






(** ['post'] while a draft is held and [create_tweet] raises. *)
Lemma handle_message_post_failed (py_str : jvalue -> string) (py_strip : string -> string)
    (w : World) (s : Sys) (text draft err : string) :
  current_tweet (globals s) = Some draft ->
  draft <> "" ->
  lower text = "post" ->
  twitter_api w (S (asked s)) = Some err ->
  handle_message py_str py_strip text w s =
  (Done tt,
   mkSys (set_last_activity_time (Some (time_time w (asked s))) (globals s))
         (log s ++ [reply_text msg_posting; create_tweet draft;
                    reply_text ("❌ Error posting tweet: " ++ err)])
         (S (S (asked s))) (exited s)).
Proof.
  intros Hdraft Hne Hpost Herr. destruct s as [g l k ex].
  cbn [globals asked] in Hdraft, Herr.
  run_handler. cbn [set_last_activity_time current_tweet]. rewrite Hdraft.
  unfold text_truthy. apply String.eqb_neq in Hne. rewrite Hne. cbn [negb].
  rewrite Hpost. cbn [String.eqb Ascii.eqb Bool.eqb andb]. cbn [fst snd globals log asked exited].
  rewrite Herr. cbn [post_tweet fst snd globals log asked exited].
  now rewrite <- !app_assoc.
Qed.

(** One round of the command-line loop when [generate_tweet_text] returns
    [None]: the loop goes round again with the index in the used list. *)
Lemma cli_iteration_draft_failed (py_str : jvalue -> string) (py_strip : string -> string)
    (w : World) (s : Sys) (articles : list article) (used : list nat)
    (i : nat) (info : string) (a : article) :
  select_article py_str (Some articles) (Some used) (random_draw w (asked s))
    = Return (Some (i, info)) ->
  nth_error articles i = Some a ->
  generate_tweet_text py_str py_strip a (gemini_api w (S (asked s))) = Return None ->
  cli_iteration py_str py_strip (Some articles) used w s =
  (Done (Some (Some articles, used ++ [i])),
   mkSys (globals s) (log s ++ [requests_post a]) (S (S (asked s))) (exited s)).
Proof.
  intros Hsel Hnth Hgen. destruct s as [g l k ex]. cbn [asked] in Hsel, Hgen.
  run_handler. rewrite (select_article_cli_index py_str), Hsel.
  cbn [fst snd globals log asked exited]. rewrite Hnth.
  cbn [fst snd globals log asked exited]. rewrite Hgen. reflexivity.
Qed.

(** *** A draft that cannot be generated *)

(** Against C3 as stated: with the two sample articles fetched and the
    generator answering 500, [/tweet] selects index 0, fails to draft, and
    leaves 0 in the used list; every later selection returns index 1. *)
Lemma failed_draft_consumes_index :
  let w := sample_world sample_news sample_server_error None in
  let s' := snd (tweet_command sample_str sample_strip w boot) in
  current_tweet (globals s') = None /\
  current_articles (globals s') = Some sample_articles /\
  used_indices (globals s') = [0] /\
  (forall r info,
     select_article sample_str (current_articles (globals s'))
       (Some (used_indices (globals s'))) r <> Return (Some (0, info))) /\
  fst (cli_iteration sample_str sample_strip (Some sample_articles) [] w boot)
  = Done (Some (Some sample_articles, [0])).
Proof.
  intros w s'.
  assert (Hg : globals s' =
               mkSession (Some sample_articles) [0] (nth_error sample_articles 0) None
                         None (Some (time_time w 0))) by reflexivity.
  rewrite Hg. cbn [current_tweet current_articles used_indices].
  repeat split.
  intros r info.
  destruct (select_article_cases sample_str sample_articles [0] r)
    as [[Hnil _] | [i [info' [Hsel [_ Hin]]]]].
  - discriminate.
  - rewrite Hsel. apply In_available in Hin. destruct Hin as [_ Hout].
    intros Heq. injection Heq as Hi _. apply Hout. left. now rewrite Hi.
Qed.

(** C3, amended.  [tweet_command] appends the selected index to the used
    list before it calls the generator.  When [generate_tweet_text] then
    returns [None], the index stays in the used list, the batch is kept and
    the draft is cleared, so [select_article] does not return that index
    again for this batch; the command-line loop likewise goes round again
    with the index in its used list. *)
Theorem selected_index_recorded_before_drafting (py_str : jvalue -> string)
    (py_strip : string -> string) (w : World) (s : Sys) (articles : list article)
    (i : nat) (info : string) (a : article) :
  current_articles (globals s) = Some articles ->
  select_article py_str (Some articles) (Some (used_indices (globals s)))
    (random_draw w (S (asked s))) = Return (Some (i, info)) ->
  nth_error articles i = Some a ->
  generate_tweet_text py_str py_strip a (gemini_api w (S (S (asked s)))) = Return None ->
  let s' := snd (tweet_command py_str py_strip w s) in
  used_indices (globals s') = used_indices (globals s) ++ [i] /\
  current_articles (globals s') = Some articles /\
  current_tweet (globals s') = None /\
  (forall r info',
     select_article py_str (current_articles (globals s'))
       (Some (used_indices (globals s'))) r <> Return (Some (i, info'))) /\
  (forall s0 used info0,
     select_article py_str (Some articles) (Some used) (random_draw w (asked s0))
       = Return (Some (i, info0)) ->
     generate_tweet_text py_str py_strip a (gemini_api w (S (asked s0))) = Return None ->
     fst (cli_iteration py_str py_strip (Some articles) used w s0)
     = Done (Some (Some articles, used ++ [i]))).
Proof.
  intros Hbatch Hsel Hnth Hgen s'. subst s'.
  rewrite (tweet_command_draft_failed py_str py_strip w s articles i info a
             Hbatch Hsel Hnth Hgen).
  cbn [snd globals set_current_tweet set_current_article set_used_indices
       set_last_activity_time used_indices current_articles current_tweet].
  repeat split.
  - exact Hbatch.
  - rewrite Hbatch. intros r info' Hagain.
    destruct (select_article_cases py_str articles (used_indices (globals s) ++ [i]) r)
      as [[_ Hnone] | [j [info'' [Hsome [_ Hin]]]]]; [congruence |].
    rewrite Hsome in Hagain. injection Hagain as Hj _. subst j.
    apply In_available in Hin. destruct Hin as [_ Hout].
    apply Hout, in_or_app. right. now left.
  - intros s0 used info0 Hsel0 Hgen0.
    now rewrite (cli_iteration_draft_failed py_str py_strip w s0 articles used i info0 a
                   Hsel0 Hnth Hgen0).
Qed.

Lemma selected_index_recorded_before_drafting_witness :
  let w := sample_world sample_news sample_server_error None in
  let s := mkSys (mkSession (Some sample_articles) [] None None None None) [] 0 false in
  used_indices (globals (snd (tweet_command sample_str sample_strip w s))) = [0] /\
  current_tweet (globals (snd (tweet_command sample_str sample_strip w s))) = None.
Proof.
  intros w s.
  destruct (selected_index_recorded_before_drafting sample_str sample_strip w s
              sample_articles 0
              (article_info sample_str 0 2 (nth 0 sample_articles (mkArticle JNull JNull JNull JNull)))
              (nth 0 sample_articles (mkArticle JNull JNull JNull JNull))
              eq_refl eq_refl eq_refl eq_refl)
    as [Hused [_ [Hdraft _]]].
  split; [exact Hused | exact Hdraft].
Defined.

(** *** What a failed adapter call leaves behind *)




(** *** A news source that cannot be reached *)




(** ** The used list of the running bot *)

Lemma select_article_fresh (py_str : jvalue -> string) (articles : option (list article))
    (used : list nat) (r i : nat) (info : string) :
  select_article py_str articles (Some used) r = Return (Some (i, info)) ->
  ~ In i used.
Proof.
  destruct articles as [articles |]; [| discriminate].
  intros H.
  destruct (select_article_cases py_str articles used r)
    as [[_ Hnone] | [j [info' [Hsome [_ Hin]]]]]; [congruence |].
  rewrite Hsome in H. injection H as -> _. now apply In_available in Hin.
Qed.

Lemma NoDup_snoc (l : list nat) (i : nat) : NoDup l -> ~ In i l -> NoDup (l ++ [i]).
Proof.
  intros Hnd Hout. apply NoDup_app; [assumption | repeat constructor; intros [] |].
  intros x Hx [Hxi | []]. now subst.
Qed.

(** Splits on the innermost scrutinee of the goal. *)
Ltac case_step :=
  match goal with
  | |- context [match ?x with _ => _ end] =>
      lazymatch x with
      | context [match _ with _ => _ end] => fail
      | _ => destruct x eqn:?
      end
  end.

Lemma tweet_command_NoDup (py_str : jvalue -> string) (py_strip : string -> string)
    (w : World) (s : Sys) :
  NoDup (used_indices (globals s)) ->
  NoDup (used_indices (globals (snd (tweet_command py_str py_strip w s)))).
Proof.
  intros H. destruct s as [g l k ex]. simpl in H.
  run_handler. simpl.
  repeat (case_step; simpl);
    first [ assumption
          | apply NoDup_nil
          | apply NoDup_cons; [intros [] | apply NoDup_nil]
          | apply NoDup_snoc; [assumption | eapply select_article_fresh; eassumption] ].
Qed.

Lemma handle_message_NoDup (py_str : jvalue -> string) (py_strip : string -> string)
    (text : string) (w : World) (s : Sys) :
  NoDup (used_indices (globals s)) ->
  NoDup (used_indices (globals (snd (handle_message py_str py_strip text w s)))).
Proof.
  intros H. unfold handle_message.
  unfold bind at 1. unfold update_activity_timestamp, bind at 1, ask, write.
  cbn [fst snd]. unfold bind at 1. unfold read at 1. cbn [fst snd globals].
  destruct (current_tweet _) as [draft |]; [| exact H].
  destruct (negb _); [exact H |].
  destruct (lower text =? "post")%string.
  { unfold do_post_tweet, bind, emit, ask, ret, write. cbn [fst snd globals post_tweet].
    destruct (twitter_api w _); exact H. }
  destruct (lower text =? "new")%string.
  { unfold bind at 1. unfold emit at 1. cbn [fst snd]. apply tweet_command_NoDup. exact H. }
  destruct (lower text =? "exit")%string; exact H.
Qed.

Lemma deliver_NoDup (py_str : jvalue -> string) (py_strip : string -> string)
    (w : World) (s : Sys) (i : input) :
  NoDup (used_indices (globals s)) ->
  NoDup (used_indices (globals (deliver py_str py_strip w s i))).
Proof.
  intros H. unfold deliver. destruct (exited s); [exact H |].
  destruct i as [| | | text | []]; cbn [handler].
  - exact H.
  - exact H.
  - now apply tweet_command_NoDup.
  - now apply handle_message_NoDup.
  - exact H.
  - destruct s as [g l k ex]. run_handler. simpl. repeat (case_step; simpl); exact H.
Qed.

Lemma run_NoDup (py_str : jvalue -> string) (py_strip : string -> string)
    (w : World) (inputs : list input) :
  forall s,
    NoDup (used_indices (globals s)) ->
    NoDup (used_indices (globals (run py_str py_strip w s inputs))).
Proof.
  induction inputs as [| i rest IH]; intros s H; [exact H |].
  change (run py_str py_strip w s (i :: rest))
    with (run py_str py_strip w (deliver py_str py_strip w s i) rest).
  apply IH. now apply deliver_NoDup.
Qed.

(** C2.  Starting from an empty used list and appending each returned index,
    the first N calls on a batch of size N return N pairwise-distinct
    indices that cover the batch, whatever the random draws, and call N+1
    returns [None].  The used list of the running bot never holds a
    duplicate, whatever events arrive and whatever the world answers. *)
Theorem select_without_replacement (py_str : jvalue -> string)
    (articles : list article) (draws : nat -> nat) :
  let n := List.length articles in
  exists idxs,
    select_repeatedly py_str articles [] (map draws (seq 0 n)) = map Some idxs /\
    List.length idxs = n /\
    NoDup idxs /\
    Permutation idxs (seq 0 n) /\
    select_repeatedly py_str articles [] (map draws (seq 0 (S n)))
      = map Some idxs ++ [None] /\
    select_article py_str (Some articles) (Some idxs) (draws n) = Return None /\
    (forall py_strip w inputs,
       NoDup (used_indices (globals (run py_str py_strip w boot inputs)))).
Proof.
  intros n.
  destruct (select_repeatedly_distinct py_str articles (map draws (seq 0 n)) [])
    as [idxs [Hrun [Hl [Hnd Hlt]]]].
  - constructor.
  - intros i [].
  - simpl. rewrite length_map, length_seq. fold n. lia.
  - simpl in Hnd, Hlt. rewrite length_map, length_seq in Hl.
    assert (Hperm : Permutation idxs (seq 0 n)).
    { apply NoDup_Permutation_bis; [assumption | rewrite length_seq; lia |].
      intros i Hi. apply in_seq. apply Hlt in Hi. fold n in Hi. lia. }
    assert (Hnone : forall r, select_article py_str (Some articles) (Some idxs) r = Return None).
    { intros r.
      destruct (select_article_cases py_str articles idxs r)
        as [[_ Hnone] | [j [info [_ [_ Hin]]]]]; [exact Hnone |].
      apply In_available in Hin. destruct Hin as [Hj Hout]. exfalso. apply Hout.
      apply (Permutation_in j (Permutation_sym Hperm)). apply in_seq. lia. }
    exists idxs. repeat split; auto.
    2: { intros py_strip w inputs. apply run_NoDup. apply NoDup_nil. }
    rewrite seq_S, map_app. rewrite (select_repeatedly_app _ _ _ _ _ _ Hrun).
    cbn [select_repeatedly map app]. now rewrite Hnone.
Qed.

(** A run of C1 on the sample batch. *)
Lemma select_article_spec_witness :
  exists i info,
    select_article sample_str (Some sample_articles) (Some [0]) 7 = Return (Some (i, info)) /\
    i < 2 /\ ~ In i [0].
Proof.
  destruct (select_article_spec sample_str sample_articles (Some [0]) 7) as [_ [Hsome _]].
  destruct Hsome as [i [info [Hsel [_ [Hlt [Hout _]]]]]].
  - exists 1. split; [cbn; lia | intros [H | []]; discriminate].
  - exists i, info. split; [exact Hsel |]. split; [exact Hlt | exact Hout].
Defined.

(** * Further properties *)

(** ** The news source adapter, continued *)

Lemma read_article_raises (raw : jvalue) (e : exn) :
  read_article raw = Raise e -> e = AttributeError.
Proof.
  unfold read_article, dict_get.
  destruct raw as [| b | q | s | items | members]; simpl; try congruence.
  destruct (lookup "title" members), (lookup "description" members); simpl;
    destruct (lookup "source" members) as [[| b | q | s | items | m] |]; simpl;
    try congruence;
    try (destruct (lookup "name" m); simpl);
    destruct (lookup "url" members); simpl; congruence.
Qed.

Lemma format_articles_raises (items : list jvalue) (raw : jvalue) (e : exn) :
  In raw items ->
  read_article raw = Raise e ->
  forall acc, format_articles items acc = Raise AttributeError.
Proof.
  intros Hin Hraw. induction items as [| x rest IH]; [contradiction |].
  intros acc. cbn [format_articles].
  destruct (read_article x) as [a | e'] eqn:Ex; cbn [rbind].
  - destruct Hin as [-> | Hin]; [congruence |].
    destruct (eligible a); now apply IH.
  - now rewrite (read_article_raises x e' Ex).
Qed.

Lemma format_articles_complete (items : list jvalue) :
  forall arts acc,
    read_all items = Return arts ->
    format_articles items acc = Return (acc ++ filter eligible arts).
Proof.
  induction items as [| x rest IH]; intros arts acc Hall; cbn [read_all] in Hall.
  - injection Hall as <-. cbn. now rewrite app_nil_r.
  - cbn [format_articles].
    destruct (read_article x) as [a | e]; cbn [rbind] in *; [| discriminate].
    destruct (read_all rest) as [l | e]; cbn [rbind] in *; [| discriminate].
    injection Hall as <-. cbn [filter].
    destruct (eligible a); rewrite (IH l _ eq_refl); [| reflexivity].
    now rewrite <- app_assoc.
Qed.

(** One raw article that cannot be read (it is not an object, or its
    [source] is not an object) makes [fetch_tech_news] raise
    [AttributeError]: the articles read before it are lost with it. *)
Theorem fetch_tech_news_malformed_article (data : jvalue) (items : list jvalue)
    (raw : jvalue) :
  dict_get data "articles" (JArr []) = Return (JArr items) ->
  In raw items ->
  ((forall members, raw <> JObj members) \/
   (exists members v,
      raw = JObj members /\ lookup "source" members = Some v /\ forall m, v <> JObj m)) ->
  fetch_tech_news (Response 200 (Some data)) = Raise AttributeError.
Proof.
  intros Hget Hin Hbad.
  assert (Hraw : read_article raw = Raise AttributeError).
  { destruct Hbad as [Hnot | [members [v [-> [Hsrc Hv]]]]].
    - destruct raw; try reflexivity. now destruct (Hnot members).
    - unfold read_article, dict_get. rewrite Hsrc.
      destruct (lookup "title" members), (lookup "description" members); cbn [rbind];
        destruct v; try reflexivity; now destruct (Hv members0). }
  unfold fetch_tech_news. cbn [Z.eqb Pos.eqb response_json rbind]. rewrite Hget. cbn [rbind].
  assert (Hne : truthy (JArr items) = true) by (destruct items; [contradiction | reflexivity]).
  rewrite Hne. cbn [negb py_iter rbind].
  now rewrite (format_articles_raises items raw AttributeError Hin Hraw).
Qed.

Lemma fetch_tech_news_malformed_article_witness :
  fetch_tech_news
    (Response 200 (Some (JObj [("articles",
       JArr [sample_raw "Chips" "New chips" "http://a"; JNull])])))
  = Raise AttributeError.
Proof.
  apply (fetch_tech_news_malformed_article _
           [sample_raw "Chips" "New chips" "http://a"; JNull] JNull).
  - reflexivity.
  - right. now left.
  - left. discriminate.
Defined.

Lemma filter_nothing {A} (f : A -> bool) (l : list A) :
  (forall a, In a l -> f a = false) -> filter f l = [].
Proof.
  induction l as [| a rest IH]; intros Hnone; [reflexivity |].
  cbn [filter]. rewrite (Hnone a (or_introl eq_refl)).
  apply IH. intros x Hx. apply Hnone. now right.
Qed.

(** A 200 answer with a non-empty list of readable articles gives exactly
    the articles that pass the filter, in order.  When none passes, the
    result is the empty batch and not [None]. *)
Theorem fetch_tech_news_returns_filter (data : jvalue) (items : list jvalue)
    (arts : list article) :
  dict_get data "articles" (JArr []) = Return (JArr items) ->
  items <> [] ->
  read_all items = Return arts ->
  fetch_tech_news (Response 200 (Some data)) = Return (Some (filter eligible arts)) /\
  ((forall a, In a arts -> eligible a = false) ->
   fetch_tech_news (Response 200 (Some data)) = Return (Some [])).
Proof.
  intros Hget Hne Hall.
  assert (Hfetch : fetch_tech_news (Response 200 (Some data))
                   = Return (Some (filter eligible arts))).
  { unfold fetch_tech_news. cbn [Z.eqb Pos.eqb response_json rbind]. rewrite Hget.
    cbn [rbind].
    assert (Ht : truthy (JArr items) = true) by (destruct items; [congruence | reflexivity]).
    rewrite Ht. cbn [negb py_iter rbind].
    now rewrite (format_articles_complete items arts [] Hall). }
  split; [exact Hfetch |].
  intros Hnone. rewrite Hfetch. f_equal. f_equal.
  apply filter_nothing. exact Hnone.
Qed.

Lemma fetch_tech_news_returns_filter_witness :
  fetch_tech_news
    (Response 200 (Some (JObj [("articles", JArr [sample_raw "" "No title" "http://b"])])))
  = Return (Some []).
Proof.
  refine (proj2 (fetch_tech_news_returns_filter
                   (JObj [("articles", JArr [sample_raw "" "No title" "http://b"])])
                   [sample_raw "" "No title" "http://b"]
                   [mkArticle (JStr "") (JStr "No title") (JStr "The Wire") (JStr "http://b")]
                   eq_refl _ eq_refl) _).
  - discriminate.
  - intros a [<- | []]. reflexivity.
Defined.

(** [/tweet] with no batch held, when the fetch returns an empty batch. *)
Lemma tweet_command_empty_batch (py_str : jvalue -> string) (py_strip : string -> string)
    (w : World) (s : Sys) :
  batch_truthy (current_articles (globals s)) = false ->
  fetch_tech_news (news_api w (S (asked s))) = Return (Some []) ->
  tweet_command py_str py_strip w s =
  (Done tt,
   mkSys (set_used_indices [] (set_current_articles (Some [])
            (set_last_activity_time (Some (time_time w (asked s))) (globals s))))
         (log s ++ [reply_text msg_looking; requests_get; reply_text msg_fetch_failed])
         (S (S (asked s))) (exited s)).
Proof.
  intros Hb Hf. destruct s as [g l k ex]. simpl in *.
  run_handler. simpl. rewrite Hb. simpl. rewrite Hf. simpl.
  now rewrite <- !app_assoc.
Qed.

(** When the news source answers 200 with articles of which none passes the
    filter, [/tweet] reports a failed fetch; it holds an empty batch, makes
    no selection and calls neither the generator nor the publisher, and the
    next [/tweet] will fetch again. *)
Theorem tweet_command_no_eligible_article (py_str : jvalue -> string)
    (py_strip : string -> string) (w : World) (s : Sys)
    (data : jvalue) (items : list jvalue) (arts : list article) :
  batch_truthy (current_articles (globals s)) = false ->
  news_api w (S (asked s)) = Response 200 (Some data) ->
  dict_get data "articles" (JArr []) = Return (JArr items) ->
  items <> [] ->
  read_all items = Return arts ->
  (forall a, In a arts -> eligible a = false) ->
  let s' := snd (tweet_command py_str py_strip w s) in
  fst (tweet_command py_str py_strip w s) = Done tt /\
  log s' = log s ++ [reply_text msg_looking; requests_get; reply_text msg_fetch_failed] /\
  current_articles (globals s') = Some [] /\
  used_indices (globals s') = [] /\
  current_article (globals s') = current_article (globals s) /\
  current_tweet (globals s') = current_tweet (globals s) /\
  batch_truthy (current_articles (globals s')) = false.
Proof.
  intros Hb Hnews Hget Hne Hall Hnone s'. subst s'.
  assert (Hf : fetch_tech_news (news_api w (S (asked s))) = Return (Some [])).
  { rewrite Hnews. unfold fetch_tech_news. cbn [Z.eqb Pos.eqb response_json rbind].
    rewrite Hget. cbn [rbind].
    assert (Ht : truthy (JArr items) = true) by (destruct items; [congruence | reflexivity]).
    rewrite Ht. cbn [negb py_iter rbind].
    rewrite (format_articles_complete items arts [] Hall). cbn [app rbind].
    now rewrite (filter_nothing eligible arts Hnone). }
  rewrite (tweet_command_empty_batch py_str py_strip w s Hb Hf).
  cbn [fst snd globals log]. repeat split.
Qed.

Lemma tweet_command_no_eligible_article_witness :
  let w := sample_world
             (Response 200 (Some (JObj [("articles",
                JArr [sample_raw "" "No title" "http://b"])])))
             sample_draft_reply None in
  log (snd (tweet_command sample_str sample_strip w boot))
  = [reply_text msg_looking; requests_get; reply_text msg_fetch_failed].
Proof.
  intros w.
  refine (proj1 (proj2 (tweet_command_no_eligible_article sample_str sample_strip w boot
                          (JObj [("articles", JArr [sample_raw "" "No title" "http://b"])])
                          [sample_raw "" "No title" "http://b"]
                          [mkArticle (JStr "") (JStr "No title") (JStr "The Wire")
                                     (JStr "http://b")]
                          eq_refl eq_refl eq_refl _ eq_refl _))).
  - discriminate.
  - intros a [<- | []]. reflexivity.
Defined.

(** ** The draft generator *)

Lemma append_nonempty (x y : string) : y <> "" -> (x ++ y)%string <> "".
Proof.
  intros Hy. destruct x as [| c x]; [exact Hy | discriminate].
Qed.

(** A draft that [generate_tweet_text] returns is the stripped text of the
    first part of the first candidate, a blank line and the url of the
    article; it is never empty, so [if not current_tweet] tests for [None]
    only. *)
Theorem generate_tweet_text_shape (py_str : jvalue -> string) (py_strip : string -> string)
    (a : article) (response : http_result) (tweet : string) :
  generate_tweet_text py_str py_strip a response = Return (Some tweet) ->
  (exists data candidates candidate content parts part s,
     response = Response 200 (Some data) /\
     getitem_key data "candidates" = Return candidates /\
     getitem_0 candidates = Return candidate /\
     getitem_key candidate "content" = Return content /\
     getitem_key content "parts" = Return parts /\
     getitem_0 parts = Return part /\
     getitem_key part "text" = Return (JStr s) /\
     tweet = (py_strip s ++ newline ++ newline ++ py_str (url a))%string) /\
  text_truthy (Some tweet) = true.
Proof.
  unfold generate_tweet_text. intros H.
  destruct response as [| status_code body]; [discriminate |].
  destruct (status_code =? 200)%Z eqn:Es; [| discriminate].
  apply Z.eqb_eq in Es. subst status_code.
  destruct body as [data |]; cbn [response_json rbind] in H; [| discriminate].
  unfold extract_tweet in H.
  destruct (getitem_key data "candidates") as [candidates | e1] eqn:E1; cbn [rbind] in H.
  2: { destruct e1; discriminate. }
  destruct (getitem_0 candidates) as [candidate | e2] eqn:E2; cbn [rbind] in H.
  2: { destruct e2; discriminate. }
  destruct (getitem_key candidate "content") as [content | e3] eqn:E3; cbn [rbind] in H.
  2: { destruct e3; discriminate. }
  destruct (getitem_key content "parts") as [parts | e4] eqn:E4; cbn [rbind] in H.
  2: { destruct e4; discriminate. }
  destruct (getitem_0 parts) as [part | e5] eqn:E5; cbn [rbind] in H.
  2: { destruct e5; discriminate. }
  destruct (getitem_key part "text") as [text | e6] eqn:E6; cbn [rbind] in H.
  2: { destruct e6; discriminate. }
  destruct text as [| b | q | s | items | members]; try discriminate.
  injection H as <-. split.
  - exists data, candidates, candidate, content, parts, part, s. repeat split; assumption.
  - unfold text_truthy. apply negb_true_iff, String.eqb_neq.
    apply append_nonempty. discriminate.
Qed.

Lemma generate_tweet_text_shape_witness :
  text_truthy
    (Some ("Big news #AI" ++ newline ++ newline ++ "http://a")%string) = true.
Proof.
  apply (generate_tweet_text_shape sample_str sample_strip
           (mkArticle (JStr "Chips") (JStr "New chips") (JStr "The Wire") (JStr "http://a"))
           sample_draft_reply).
  reflexivity.
Defined.

(** What a failing generator call gives: [None] for a status other than 200
    and for an answer that lacks the [candidates] key or has no candidate;
    an exception that leaves the function when the answer has a value of
    the wrong type on the way to the text.  [KeyError] and [IndexError]
    never leave it. *)
Theorem generate_tweet_text_failures (py_str : jvalue -> string)
    (py_strip : string -> string) (a : article) :
  (forall status_code body,
     status_code <> 200%Z ->
     generate_tweet_text py_str py_strip a (Response status_code body) = Return None) /\
  (forall members,
     lookup "candidates" members = None \/ lookup "candidates" members = Some (JArr []) ->
     generate_tweet_text py_str py_strip a (Response 200 (Some (JObj members)))
     = Return None) /\
  (forall members,
     lookup "candidates" members = Some JNull ->
     generate_tweet_text py_str py_strip a (Response 200 (Some (JObj members)))
     = Raise TypeError) /\
  (forall members text,
     lookup "text" members = Some text ->
     (forall s, text <> JStr s) ->
     generate_tweet_text py_str py_strip a
       (Response 200 (Some (JObj [("candidates",
          JArr [JObj [("content", JObj [("parts", JArr [JObj members])])]])])))
     = Raise AttributeError) /\
  (forall response e,
     generate_tweet_text py_str py_strip a response = Raise e ->
     e <> KeyError /\ e <> IndexError).
Proof.
  repeat split.
  - intros status_code body Hne. unfold generate_tweet_text.
    apply Z.eqb_neq in Hne. now rewrite Hne.
  - intros members [H | H]; unfold generate_tweet_text, extract_tweet, getitem_key;
      cbn [Z.eqb Pos.eqb response_json rbind]; rewrite H; reflexivity.
  - intros members H. unfold generate_tweet_text, extract_tweet, getitem_key.
    cbn [Z.eqb Pos.eqb response_json rbind]. rewrite H. reflexivity.
  - intros members text Htext Hnot. unfold generate_tweet_text, extract_tweet.
    cbn. rewrite Htext. cbn.
    destruct text; try reflexivity. now destruct (Hnot s).
  - unfold generate_tweet_text in H.
    destruct response as [| status_code body]; [congruence |].
    destruct (status_code =? 200)%Z; [| discriminate].
    destruct body as [data |]; cbn [response_json rbind] in H; [| congruence].
    destruct (extract_tweet py_str py_strip data a) as [t | []]; congruence.
  - unfold generate_tweet_text in H.
    destruct response as [| status_code body]; [congruence |].
    destruct (status_code =? 200)%Z; [| discriminate].
    destruct body as [data |]; cbn [response_json rbind] in H; [| congruence].
    destruct (extract_tweet py_str py_strip data a) as [t | []]; congruence.
Qed.

Lemma generate_tweet_text_failures_witness :
  generate_tweet_text sample_str sample_strip
    (mkArticle (JStr "Chips") (JStr "New chips") (JStr "The Wire") (JStr "http://a"))
    sample_server_error = Return None /\
  generate_tweet_text sample_str sample_strip
    (mkArticle (JStr "Chips") (JStr "New chips") (JStr "The Wire") (JStr "http://a"))
    (Response 200 (Some (JObj [("candidates", JArr [])]))) = Return None.
Proof.
  destruct (generate_tweet_text_failures sample_str sample_strip
              (mkArticle (JStr "Chips") (JStr "New chips") (JStr "The Wire")
                         (JStr "http://a")))
    as [Hstatus [Hmissing _]].
  split.
  - apply Hstatus. discriminate.
  - apply Hmissing. right. reflexivity.
Defined.

(** ** The selection policy, continued *)

(** [select_article] reads the used list as a set: two used lists with the
    same indices below the batch length give the same result, whatever
    their order, their repetitions and their entries out of range. *)
Theorem select_article_used_as_set (py_str : jvalue -> string) (articles : list article)
    (used used' : list nat) (r : nat) :
  (forall i, i < List.length articles -> (In i used <-> In i used')) ->
  select_article py_str (Some articles) (Some used) r
  = select_article py_str (Some articles) (Some used') r /\
  select_article_cli (Some articles) (Some used) r
  = select_article_cli (Some articles) (Some used') r.
Proof.
  intros Hsame.
  assert (Hav : available_articles (List.length articles) used
                = available_articles (List.length articles) used').
  { unfold available_articles. apply filter_ext_in. intros i Hi.
    apply in_seq in Hi. f_equal.
    destruct (py_in i used) eqn:E1, (py_in i used') eqn:E2; try reflexivity.
    - apply py_in_In, Hsame, py_in_In in E1; [congruence | lia].
    - apply py_in_In, Hsame, py_in_In in E2; [congruence | lia]. }
  unfold select_article, select_article_cli. now rewrite Hav.
Qed.

Lemma select_article_used_as_set_witness :
  select_article sample_str (Some sample_articles) (Some [0; 7; 0]) 3
  = select_article sample_str (Some sample_articles) (Some [0]) 3.
Proof.
  apply (select_article_used_as_set sample_str sample_articles [0; 7; 0] [0] 3).
  intros i Hi. cbn in Hi. split.
  - intros [H | [H | [H | []]]]; [now left | lia | now left].
  - intros [H | []]. now left.
Defined.

(** ** Replies to a held draft *)

Lemma lower_ascii_idempotent (c : ascii) : lower_ascii (lower_ascii c) = lower_ascii c.
Proof.
  destruct c as [[] [] [] [] [] [] [] []]; reflexivity.
Qed.

Lemma lower_idempotent (s : string) : lower (lower s) = lower s.
Proof.
  induction s as [| c rest IH]; [reflexivity |].
  cbn [lower]. now rewrite lower_ascii_idempotent, IH.
Qed.

(** The replies are read without regard to case: a message and its
    lower-case form are handled alike, in every state and world. *)
Theorem handle_message_ignores_case (py_str : jvalue -> string)
    (py_strip : string -> string) (text : string) (w : World) (s : Sys) :
  handle_message py_str py_strip text w s
  = handle_message py_str py_strip (lower text) w s.
Proof.
  pose proof (lower_idempotent text) as Hlower. unfold handle_message.
  revert Hlower. generalize (lower (lower text)). intros x ->. reflexivity.
Qed.

(** ['exit'] while a draft is held. *)
Lemma handle_message_exit_run (py_str : jvalue -> string) (py_strip : string -> string)
    (w : World) (s : Sys) (text draft : string) :
  current_tweet (globals s) = Some draft ->
  draft <> "" ->
  lower text = "exit" ->
  handle_message py_str py_strip text w s =
  (Done tt,
   mkSys (set_current_tweet None
            (set_last_activity_time (Some (time_time w (asked s))) (globals s)))
         (log s ++ [reply_text msg_cancelled; timer_start 2%Q cb_force_exit])
         (S (asked s)) (exited s)).
Proof.
  intros Hdraft Hne Hexit. destruct s as [g l k ex]. cbn [globals asked] in Hdraft.
  run_handler. cbn [set_last_activity_time current_tweet]. rewrite Hdraft.
  unfold text_truthy. apply String.eqb_neq in Hne. rewrite Hne. cbn [negb].
  rewrite Hexit. cbn [String.eqb Ascii.eqb Bool.eqb andb].
  cbn [fst snd globals log asked exited].
  now rewrite <- !app_assoc.
Qed.

(** A reply that is none of the three words, while a draft is held. *)
Lemma handle_message_other_run (py_str : jvalue -> string) (py_strip : string -> string)
    (w : World) (s : Sys) (text draft : string) :
  current_tweet (globals s) = Some draft ->
  draft <> "" ->
  lower text <> "post" -> lower text <> "new" -> lower text <> "exit" ->
  handle_message py_str py_strip text w s =
  (Done tt,
   mkSys (set_last_activity_time (Some (time_time w (asked s))) (globals s))
         (log s ++ [reply_text msg_options])
         (S (asked s)) (exited s)).
Proof.
  intros Hdraft Hne Hpost Hnew Hexit. destruct s as [g l k ex].
  cbn [globals asked] in Hdraft.
  run_handler. cbn [set_last_activity_time current_tweet]. rewrite Hdraft.
  unfold text_truthy. apply String.eqb_neq in Hne. rewrite Hne. cbn [negb].
  apply String.eqb_neq in Hpost, Hnew, Hexit. rewrite Hpost, Hnew, Hexit.
  reflexivity.
Qed.

(** ['exit'] with a draft held discards the draft and starts the 2-second
    timer of [force_exit] without calling the publisher or the generator;
    batch, used list and current article stay.  From then on, as after a
    successful post, no event other than a fresh [/tweet] gets anything
    published, and the process has exited once the timer fires. *)
Theorem handle_message_exit (py_str : jvalue -> string) (py_strip : string -> string)
    (w : World) (s : Sys) (text draft : string) :
  exited s = false ->
  current_tweet (globals s) = Some draft ->
  draft <> "" ->
  lower text = "exit" ->
  let s1 := deliver py_str py_strip w s (text_message text) in
  current_tweet (globals s1) = None /\
  log s1 = log s ++ [reply_text msg_cancelled; timer_start 2%Q cb_force_exit] /\
  current_articles (globals s1) = current_articles (globals s) /\
  used_indices (globals s1) = used_indices (globals s) /\
  current_article (globals s1) = current_article (globals s) /\
  (forall later,
     forallb (fun i => negb (is_cmd_tweet i)) later = true ->
     publish_calls (log (run py_str py_strip w s1 later)) = publish_calls (log s)) /\
  exited (deliver py_str py_strip w s1 (timer_fires cb_force_exit)) = true.
Proof.
  intros Hrun Hdraft Hne Hexit s1.
  assert (Hs1 : s1 = snd (handle_message py_str py_strip text w s)).
  { subst s1. unfold deliver. now rewrite Hrun. }
  rewrite (handle_message_exit_run py_str py_strip w s text draft Hdraft Hne Hexit) in Hs1.
  cbn [snd] in Hs1.
  assert (Hnone : current_tweet (globals s1) = None) by (rewrite Hs1; reflexivity).
  split; [exact Hnone |]. split; [rewrite Hs1; reflexivity |].
  split; [rewrite Hs1; reflexivity |]. split; [rewrite Hs1; reflexivity |].
  split; [rewrite Hs1; reflexivity |]. split.
  - intros later Hlater.
    rewrite (proj2 (run_without_draft py_str py_strip w later s1 Hlater Hnone)).
    rewrite Hs1. cbn [log]. rewrite publish_calls_app. cbn. lia.
  - apply deliver_force_exit.
Qed.

Lemma handle_message_exit_witness :
  let w := sample_world sample_news sample_draft_reply None in
  let s1 := deliver sample_str sample_strip w sample_session_with_draft (text_message "EXIT") in
  current_tweet (globals s1) = None /\
  publish_calls (log (run sample_str sample_strip w s1 [text_message "post"])) = 0.
Proof.
  intros w s1.
  assert (Hne : "Big news #AI" <> "") by discriminate.
  destruct (handle_message_exit sample_str sample_strip w sample_session_with_draft
              "EXIT" "Big news #AI" eq_refl eq_refl Hne eq_refl)
    as [Hcleared [_ [_ [_ [_ [Hlater _]]]]]].
  split; [exact Hcleared |].
  exact (Hlater [text_message "post"] eq_refl).
Defined.

(** A reply other than ['post'], ['new'] and ['exit'] (in any case) to a
    held draft gets the list of options and changes nothing but the
    last-activity timestamp: the draft stays held and no adapter is
    called. *)
Theorem handle_message_unrecognized (py_str : jvalue -> string)
    (py_strip : string -> string) (w : World) (s : Sys) (text draft : string) :
  current_tweet (globals s) = Some draft ->
  draft <> "" ->
  lower text <> "post" -> lower text <> "new" -> lower text <> "exit" ->
  let s' := snd (handle_message py_str py_strip text w s) in
  fst (handle_message py_str py_strip text w s) = Done tt /\
  log s' = log s ++ [reply_text msg_options] /\
  globals s' = set_last_activity_time (Some (time_time w (asked s))) (globals s) /\
  same_conversation (globals s) (globals s') /\
  current_tweet (globals s') = Some draft /\
  exited s' = exited s.
Proof.
  intros Hdraft Hne Hpost Hnew Hexit s'. subst s'.
  rewrite (handle_message_other_run py_str py_strip w s text draft
             Hdraft Hne Hpost Hnew Hexit).
  cbn [fst snd globals log exited]. repeat split. exact Hdraft.
Qed.

Lemma handle_message_unrecognized_witness :
  let w := sample_world sample_news sample_draft_reply None in
  log (snd (handle_message sample_str sample_strip "publish" w sample_session_with_draft))
  = [reply_text msg_options].
Proof.
  intros w.
  assert (Hne : "Big news #AI" <> "") by discriminate.
  refine (proj1 (proj2 (handle_message_unrecognized sample_str sample_strip w
                          sample_session_with_draft "publish" "Big news #AI"
                          eq_refl Hne _ _ _))); discriminate.
Defined.

(** ** Exceptions of the generator *)

(** ['new'] with a draft held runs [tweet_command] after its own reply. *)
Lemma handle_message_new_run (py_str : jvalue -> string) (py_strip : string -> string)
    (w : World) (s : Sys) (text draft : string) :
  current_tweet (globals s) = Some draft ->
  draft <> "" ->
  lower text = "new" ->
  handle_message py_str py_strip text w s =
  tweet_command py_str py_strip w
    (mkSys (set_last_activity_time (Some (time_time w (asked s))) (globals s))
           (log s ++ [reply_text msg_new_article]) (S (asked s)) (exited s)).
Proof.
  intros Hdraft Hne Hnew. destruct s as [g l k ex]. cbn [globals asked log exited] in *.
  unfold handle_message. unfold bind at 1. unfold update_activity_timestamp.
  unfold bind at 1. unfold ask at 1. unfold write at 1. cbn [fst snd globals log asked exited].
  unfold bind at 1. unfold read at 1. cbn [fst snd globals log asked exited].
  cbn [set_last_activity_time current_tweet]. rewrite Hdraft.
  unfold text_truthy. apply String.eqb_neq in Hne. rewrite Hne. cbn [negb].
  rewrite Hnew. cbn [String.eqb Ascii.eqb Bool.eqb andb].
  unfold bind at 1. unfold emit at 1. cbn [fst snd globals log asked exited].
  reflexivity.
Qed.

(** [/tweet] with a batch that still has an unused article, when
    [generate_tweet_text] raises. *)
Lemma tweet_command_draft_raised (py_str : jvalue -> string) (py_strip : string -> string)
    (w : World) (s : Sys) (articles : list article) (i : nat) (info : string) (a : article)
    (e : exn) :
  current_articles (globals s) = Some articles ->
  select_article py_str (Some articles) (Some (used_indices (globals s)))
    (random_draw w (S (asked s))) = Return (Some (i, info)) ->
  nth_error articles i = Some a ->
  generate_tweet_text py_str py_strip a (gemini_api w (S (S (asked s)))) = Raise e ->
  tweet_command py_str py_strip w s =
  (Raised e,
   mkSys (set_current_article (Some a)
            (set_used_indices (used_indices (globals s) ++ [i])
               (set_last_activity_time (Some (time_time w (asked s))) (globals s))))
         (log s ++ [reply_text msg_looking; reply_text info; reply_text msg_generating;
                    requests_post a])
         (S (S (S (asked s)))) (exited s)).
Proof.
  intros Hbatch Hsel Hnth Hgen. destruct s as [g l k ex]. simpl in *.
  assert (Htruthy : batch_truthy (Some articles) = true).
  { destruct articles; [destruct i; discriminate | reflexivity]. }
  run_handler. simpl. rewrite Hbatch, Htruthy. simpl.
  rewrite Hbatch, Htruthy. simpl. rewrite Hsel. simpl.
  rewrite Hbatch, Hnth. simpl. rewrite Hgen. simpl.
  now rewrite <- !app_assoc.
Qed.

(** ['post'] with a draft held calls the publisher with that draft, whatever
    the publisher then does. *)
Lemma handle_message_post_calls_publisher (py_str : jvalue -> string)
    (py_strip : string -> string) (w : World) (s : Sys) (text draft : string) :
  current_tweet (globals s) = Some draft ->
  draft <> "" ->
  lower text = "post" ->
  In (create_tweet draft) (log (snd (handle_message py_str py_strip text w s))).
Proof.
  intros Hdraft Hne Hpost.
  destruct (twitter_api w (S (asked s))) as [err |] eqn:Eapi.
  - rewrite (handle_message_post_failed py_str py_strip w s text draft err
               Hdraft Hne Hpost Eapi).
    cbn [snd log]. apply in_or_app. right. right. now left.
  - rewrite (handle_message_post_success py_str py_strip w s text draft
               Hdraft Hne Hpost Eapi).
    cbn [snd log]. apply in_or_app. right. right. now left.
Qed.

(** When the generator raises during ['new'] (the request cannot be made,
    the body is not JSON, a value has the wrong type), the exception leaves
    the handler after the selection was recorded: the current article is
    the new one and its index is used, but the draft of the previous article
    is still held, and a following ['post'] publishes that old draft. *)
Theorem generator_exception_keeps_old_draft (py_str : jvalue -> string)
    (py_strip : string -> string) (w : World) (s : Sys) (text draft : string)
    (articles : list article) (i : nat) (info : string) (a : article) (e : exn) :
  current_tweet (globals s) = Some draft ->
  draft <> "" ->
  lower text = "new" ->
  current_articles (globals s) = Some articles ->
  select_article py_str (Some articles) (Some (used_indices (globals s)))
    (random_draw w (S (S (asked s)))) = Return (Some (i, info)) ->
  nth_error articles i = Some a ->
  generate_tweet_text py_str py_strip a (gemini_api w (S (S (S (asked s))))) = Raise e ->
  let s' := snd (handle_message py_str py_strip text w s) in
  fst (handle_message py_str py_strip text w s) = Raised e /\
  current_tweet (globals s') = Some draft /\
  current_article (globals s') = Some a /\
  used_indices (globals s') = used_indices (globals s) ++ [i] /\
  publish_calls (log s') = publish_calls (log s) /\
  (forall text' w',
     lower text' = "post" ->
     In (create_tweet draft) (log (snd (handle_message py_str py_strip text' w' s')))).
Proof.
  intros Hdraft Hne Hnew Hbatch Hsel Hnth Hgen s'. subst s'.
  rewrite (handle_message_new_run py_str py_strip w s text draft Hdraft Hne Hnew).
  set (s1 := mkSys (set_last_activity_time (Some (time_time w (asked s))) (globals s))
                   (log s ++ [reply_text msg_new_article]) (S (asked s)) (exited s)).
  rewrite (tweet_command_draft_raised py_str py_strip w s1 articles i info a e
             Hbatch Hsel Hnth Hgen).
  subst s1.
  cbn [fst snd globals log asked set_current_article set_used_indices
       set_last_activity_time current_tweet current_article used_indices].
  repeat split; try assumption.
  - rewrite <- app_assoc, publish_calls_app. cbn. lia.
  - intros text' w' Hpost.
    apply handle_message_post_calls_publisher; cbn [globals current_tweet]; assumption.
Qed.

Lemma generator_exception_keeps_old_draft_witness :
  let w := sample_world sample_news Unreachable None in
  let s' := snd (handle_message sample_str sample_strip "new" w sample_session_with_draft) in
  fst (handle_message sample_str sample_strip "new" w sample_session_with_draft)
  = Raised ConnectionError /\
  current_tweet (globals s') = Some "Big news #AI" /\
  current_article (globals s') = nth_error sample_articles 1.
Proof.
  intros w s'.
  assert (Hne : "Big news #AI" <> "") by discriminate.
  destruct (generator_exception_keeps_old_draft sample_str sample_strip w
              sample_session_with_draft "new" "Big news #AI" sample_articles 1
              (article_info sample_str 1 2
                 (nth 1 sample_articles (mkArticle JNull JNull JNull JNull)))
              (nth 1 sample_articles (mkArticle JNull JNull JNull JNull))
              ConnectionError eq_refl Hne eq_refl eq_refl eq_refl eq_refl eq_refl)
    as [Hout [Hdraft [Hart _]]].
  repeat split; assumption.
Defined.

(** ** The used list and the batch *)

Lemma select_article_in_range (py_str : jvalue -> string) (articles : option (list article))
    (used : list nat) (r i : nat) (info : string) :
  select_article py_str articles (Some used) r = Return (Some (i, info)) ->
  exists l, articles = Some l /\ i < List.length l.
Proof.
  destruct articles as [l |]; [| discriminate].
  intros H. exists l. split; [reflexivity |].
  destruct (select_article_cases py_str l used r)
    as [[_ Hnone] | [j [info' [Hsome [_ Hin]]]]]; [congruence |].
  rewrite Hsome in H. injection H as -> _. now apply In_available in Hin.
Qed.

(** Closes one final state of a handler for [used_in_range]. *)
Ltac in_range_leaf H :=
  unfold used_in_range in *; simpl in *;
  try match goal with
  | Hq : current_articles _ = _ |- _ => rewrite Hq in *
  end;
  try match goal with
  | Hs : select_article _ _ _ _ = Return (Some (_, _)) |- _ =>
      let x := fresh "x" in let Hl := fresh "Hl" in let Hlt := fresh "Hlt" in
      destruct (select_article_in_range _ _ _ _ _ _ Hs) as [x [Hl Hlt]];
      first [ discriminate Hl | injection Hl as <- | rewrite Hl in * | subst ]
  end;
  try match goal with
  | |- match ?a with _ => _ end => destruct a
  end;
  first [ assumption | reflexivity | congruence
        | now intros ? []
        | intros ? [<- | []]; assumption
        | let j := fresh "j" in let Hj := fresh "Hj" in
          intros j Hj; apply in_app_or in Hj; destruct Hj as [Hj | [<- | []]];
          [now apply H | assumption] ].

Lemma tweet_command_used_in_range (py_str : jvalue -> string) (py_strip : string -> string)
    (w : World) (s : Sys) :
  used_in_range (globals s) ->
  used_in_range (globals (snd (tweet_command py_str py_strip w s))).
Proof.
  intros H. destruct s as [g l k ex]. simpl in H.
  run_handler. simpl.
  repeat (case_step; simpl); try assumption; in_range_leaf H.
Qed.

Lemma handle_message_used_in_range (py_str : jvalue -> string) (py_strip : string -> string)
    (text : string) (w : World) (s : Sys) :
  used_in_range (globals s) ->
  used_in_range (globals (snd (handle_message py_str py_strip text w s))).
Proof.
  intros H. unfold handle_message.
  unfold bind at 1. unfold update_activity_timestamp, bind at 1, ask, write.
  cbn [fst snd]. unfold bind at 1. unfold read at 1. cbn [fst snd globals].
  destruct (current_tweet _) as [draft |]; [| exact H].
  destruct (negb _); [exact H |].
  destruct (lower text =? "post")%string.
  { unfold do_post_tweet, bind, emit, ask, ret, write. cbn [fst snd globals post_tweet].
    destruct (twitter_api w _); exact H. }
  destruct (lower text =? "new")%string.
  { unfold bind at 1. unfold emit at 1. cbn [fst snd].
    apply tweet_command_used_in_range. exact H. }
  destruct (lower text =? "exit")%string; exact H.
Qed.

Lemma deliver_used_in_range (py_str : jvalue -> string) (py_strip : string -> string)
    (w : World) (s : Sys) (i : input) :
  used_in_range (globals s) ->
  used_in_range (globals (deliver py_str py_strip w s i)).
Proof.
  intros H. unfold deliver. destruct (exited s); [exact H |].
  destruct i as [| | | text | []]; cbn [handler].
  - exact H.
  - exact H.
  - now apply tweet_command_used_in_range.
  - now apply handle_message_used_in_range.
  - exact H.
  - destruct s as [g l k ex]. run_handler. simpl. repeat (case_step; simpl); exact H.
Qed.

Lemma run_used_in_range (py_str : jvalue -> string) (py_strip : string -> string)
    (w : World) (inputs : list input) :
  forall s,
    used_in_range (globals s) ->
    used_in_range (globals (run py_str py_strip w s inputs)).
Proof.
  induction inputs as [| i rest IH]; intros s H; [exact H |].
  change (run py_str py_strip w s (i :: rest))
    with (run py_str py_strip w (deliver py_str py_strip w s i) rest).
  apply IH. now apply deliver_used_in_range.
Qed.

(** Whatever events arrive and whatever the world answers, the used list of
    the running bot fits the batch it holds: every used index is below the
    length of the batch (and the list is empty when the batch is [None]),
    so the bot never has more used indices than articles. *)
Theorem used_indices_fit_batch (py_str : jvalue -> string) (py_strip : string -> string)
    (w : World) (inputs : list input) :
  let g := globals (run py_str py_strip w boot inputs) in
  used_in_range g /\
  (forall l,
     current_articles g = Some l ->
     (forall i, In i (used_indices g) -> i < List.length l) /\
     List.length (used_indices g) <= List.length l).
Proof.
  intros g.
  assert (Hrange : used_in_range g).
  { apply run_used_in_range. cbn. intros i []. }
  assert (Hnd : NoDup (used_indices g)).
  { apply run_NoDup. apply NoDup_nil. }
  split; [exact Hrange |].
  intros l Hl. unfold used_in_range in Hrange. rewrite Hl in Hrange.
  split; [exact Hrange |].
  assert (Hle : List.length (used_indices g) <= List.length (seq 0 (List.length l))).
  { apply NoDup_incl_length; [exact Hnd |].
    intros i Hi. apply in_seq. apply Hrange in Hi. lia. }
  now rewrite length_seq in Hle.
Qed.

(** ** Nothing is published unseen *)

Lemma previewed_snoc (l : list event) (e : event) :
  previewed_before_publish l ->
  match e with
  | create_tweet t => In (reply_text (msg_preview t)) l
  | _ => True
  end ->
  previewed_before_publish (l ++ [e]).
Proof.
  intros Hl He l1 t l2 Heq.
  destruct l2 as [| y l2'].
  - apply app_inj_tail in Heq. destruct Heq as [<- ->]. exact He.
  - destruct (@exists_last _ (y :: l2')) as [l' [z Hlast]]; [discriminate |].
    rewrite Hlast in Heq. rewrite app_comm_cons, app_assoc in Heq.
    apply app_inj_tail in Heq. destruct Heq as [Heq _].
    now apply (Hl l1 t l').
Qed.

Lemma held_nonempty (t : string) :
  negb (text_truthy (Some t)) = false -> t <> "".
Proof.
  unfold text_truthy. intros H. apply negb_false_iff, negb_true_iff in H.
  now apply String.eqb_neq.
Qed.

Lemma falsy_empty (t : string) :
  negb (text_truthy (Some t)) = true -> t = "".
Proof.
  unfold text_truthy. intros H. apply negb_true_iff, negb_false_iff in H.
  now apply String.eqb_eq.
Qed.

(** Closes one final state of a handler for [preview_invariant]. *)
Ltac preview_leaf H :=
  unfold preview_invariant, draft_was_previewed in *; simpl in *;
  let Hp := fresh "Hp" in let Hd := fresh "Hd" in
  destruct H as [Hp Hd];
  split;
  [ repeat (apply previewed_snoc;
            [| first [ exact I
                     | rewrite ?in_app_iff; repeat left; apply Hd;
                       [assumption | apply held_nonempty; assumption] ]]);
    exact Hp
  | let t := fresh "t" in let Ht := fresh "Ht" in let Hne := fresh "Hne" in
    intros t Ht Hne;
    first [ discriminate Ht
          | rewrite ?in_app_iff; repeat left; now apply Hd
          | injection Ht as <-;
            first [ rewrite ?in_app_iff; simpl; tauto
                  | exfalso; apply Hne, falsy_empty; assumption ] ] ].

Lemma tweet_command_previews (py_str : jvalue -> string) (py_strip : string -> string)
    (w : World) (s : Sys) :
  preview_invariant s -> preview_invariant (snd (tweet_command py_str py_strip w s)).
Proof.
  intros H. destruct s as [g l k ex].
  run_handler. simpl.
  repeat (case_step; simpl); preview_leaf H.
Qed.

Lemma handle_message_previews (py_str : jvalue -> string) (py_strip : string -> string)
    (text : string) (w : World) (s : Sys) :
  preview_invariant s ->
  preview_invariant (snd (handle_message py_str py_strip text w s)).
Proof.
  intros H. destruct s as [g l k ex].
  run_handler. simpl.
  repeat (case_step; simpl); try (preview_leaf H).
  apply tweet_command_previews. preview_leaf H.
Qed.

Lemma deliver_previews (py_str : jvalue -> string) (py_strip : string -> string)
    (w : World) (s : Sys) (i : input) :
  preview_invariant s -> preview_invariant (deliver py_str py_strip w s i).
Proof.
  intros H. unfold deliver. destruct (exited s); [exact H |].
  destruct i as [| | | text | []]; cbn [handler].
  - destruct s as [g l k ex]. run_handler. simpl. preview_leaf H.
  - destruct s as [g l k ex]. run_handler. simpl. preview_leaf H.
  - now apply tweet_command_previews.
  - now apply handle_message_previews.
  - destruct s as [g l k ex]. run_handler. simpl. preview_leaf H.
  - destruct s as [g l k ex]. run_handler. simpl.
    repeat (case_step; simpl); preview_leaf H.
Qed.

Lemma run_previews (py_str : jvalue -> string) (py_strip : string -> string)
    (w : World) (inputs : list input) :
  forall s, preview_invariant s -> preview_invariant (run py_str py_strip w s inputs).
Proof.
  induction inputs as [| i rest IH]; intros s H; [exact H |].
  change (run py_str py_strip w s (i :: rest))
    with (run py_str py_strip w (deliver py_str py_strip w s i) rest).
  apply IH. now apply deliver_previews.
Qed.

(** Whatever events arrive and whatever the world answers, every text the
    bot hands to the publisher was shown to the user in a preview earlier
    in the run, and so was the draft it holds. *)
Theorem published_text_was_previewed (py_str : jvalue -> string)
    (py_strip : string -> string) (w : World) (inputs : list input) :
  let s := run py_str py_strip w boot inputs in
  (forall before t after,
     log s = before ++ create_tweet t :: after ->
     In (reply_text (msg_preview t)) before) /\
  (forall t,
     current_tweet (globals s) = Some t -> t <> "" ->
     In (reply_text (msg_preview t)) (log s)).
Proof.
  intros s.
  assert (H : preview_invariant s).
  { apply run_previews. split.
    - intros l1 t l2 Heq. destruct l1; discriminate.
    - intros t Ht. discriminate. }
  exact H.
Qed.

(** ** What one event may call *)

Lemma count_events_app (p : event -> bool) (l l' : list event) :
  count_events p (l ++ l') = count_events p l + count_events p l'.
Proof. unfold count_events. now rewrite filter_app, length_app. Qed.

(** A batch just fetched and found non-empty is not exhausted. *)
Lemma fresh_batch_not_exhausted (py_str : jvalue -> string)
    (articles : option (list article)) (r : nat) :
  negb (batch_truthy articles) = false ->
  select_article py_str articles (Some []) r <> Return None.
Proof.
  intros Hb Hsel. destruct articles as [[| a rest] |]; try discriminate.
  destruct (select_article_cases py_str (a :: rest) [] r)
    as [[Hnil _] | [i [info [Hsome _]]]]; [| congruence].
  exact (proj1 (available_nil _ _) Hnil 0 (Nat.lt_0_succ _)).
Qed.

(** Closes one final state of a handler for a bound on its calls. *)
Ltac count_leaf :=
  first [ exfalso; eapply fresh_batch_not_exhausted; eassumption
        | unfold publish_calls, count_events; rewrite ?filter_app, ?length_app;
          simpl; lia ].

Lemma tweet_command_calls (py_str : jvalue -> string) (py_strip : string -> string)
    (w : World) (s : Sys) :
  let s' := snd (tweet_command py_str py_strip w s) in
  publish_calls (log s') = publish_calls (log s) /\
  count_events is_requests_get (log s') <= count_events is_requests_get (log s) + 1 /\
  count_events is_requests_post (log s') <= count_events is_requests_post (log s) + 1.
Proof.
  destruct s as [g l k ex]. run_handler. simpl.
  repeat (case_step; simpl); repeat split; count_leaf.
Qed.

Lemma handle_message_calls (py_str : jvalue -> string) (py_strip : string -> string)
    (text : string) (w : World) (s : Sys) :
  let s' := snd (handle_message py_str py_strip text w s) in
  publish_calls (log s') <= publish_calls (log s) + 1 /\
  ((lower text =? "post")%string && text_truthy (current_tweet (globals s)) = false ->
   publish_calls (log s') = publish_calls (log s)) /\
  count_events is_requests_get (log s') <= count_events is_requests_get (log s) + 1 /\
  count_events is_requests_post (log s') <= count_events is_requests_post (log s) + 1.
Proof.
  destruct s as [g l k ex]. run_handler. simpl.
  repeat (case_step; simpl).
  all: try (repeat split; try count_leaf; intros Hno;
            first [ count_leaf | rewrite Hno in *; discriminate ]).
  set (s1 := mkSys (set_last_activity_time (Some (time_time w k)) g)
                   (l ++ [reply_text msg_new_article]) (S k) ex).
  pose proof (tweet_command_calls py_str py_strip w s1) as [Hpub [Hget Hpost]].
  assert (H1 : publish_calls (log s1) = publish_calls l).
  { subst s1. cbn [log]. rewrite publish_calls_app. cbn. lia. }
  assert (H2 : count_events is_requests_get (log s1) = count_events is_requests_get l).
  { subst s1. cbn [log]. rewrite count_events_app. cbn. lia. }
  assert (H3 : count_events is_requests_post (log s1) = count_events is_requests_post l).
  { subst s1. cbn [log]. rewrite count_events_app. cbn. lia. }
  repeat split; try intros _; lia.
Qed.

Lemma deliver_calls (py_str : jvalue -> string) (py_strip : string -> string)
    (w : World) (s : Sys) (i : input) :
  let s' := deliver py_str py_strip w s i in
  publish_calls (log s') <= publish_calls (log s) + 1 /\
  (is_post_to_draft s i = false -> publish_calls (log s') = publish_calls (log s)) /\
  count_events is_requests_get (log s') <= count_events is_requests_get (log s) + 1 /\
  count_events is_requests_post (log s') <= count_events is_requests_post (log s) + 1.
Proof.
  unfold deliver, is_post_to_draft. destruct (exited s) eqn:Eex; cbn [negb andb].
  { repeat split; lia. }
  destruct i as [| | | text | []]; cbn [handler].
  - destruct s as [g l k ex]. run_handler. simpl. repeat split; try intros _; count_leaf.
  - destruct s as [g l k ex]. run_handler. simpl. repeat split; try intros _; count_leaf.
  - pose proof (tweet_command_calls py_str py_strip w s) as [Hpub [Hget Hpost]].
    repeat split; try intros _; try assumption; lia.
  - apply handle_message_calls.
  - destruct s as [g l k ex]. run_handler. simpl. repeat split; try intros _; count_leaf.
  - destruct s as [g l k ex]. run_handler. simpl.
    repeat (case_step; simpl); repeat split; try intros _; count_leaf.
Qed.

(** One event reaches the publisher at most once, and only when it is
    ['post'] (in any case) sent to a running process that holds a non-empty
    draft: commands, other messages and timers never publish.  One event
    also makes at most one request to the news source and at most one to
    the generator. *)
Theorem only_post_publishes (py_str : jvalue -> string) (py_strip : string -> string)
    (w : World) (s : Sys) (i : input) :
  let s' := deliver py_str py_strip w s i in
  publish_calls (log s') <= publish_calls (log s) + 1 /\
  (publish_calls (log s') <> publish_calls (log s) ->
   exited s = false /\
   exists text draft,
     i = text_message text /\ lower text = "post" /\
     current_tweet (globals s) = Some draft /\ draft <> "") /\
  count_events is_requests_get (log s') <= count_events is_requests_get (log s) + 1 /\
  count_events is_requests_post (log s') <= count_events is_requests_post (log s) + 1.
Proof.
  intros s'. subst s'.
  destruct (deliver_calls py_str py_strip w s i) as [Hle [Honly [Hget Hpost]]].
  repeat split; try assumption.
  - destruct (exited s) eqn:Eex; [| reflexivity].
    exfalso. apply H. apply Honly. unfold is_post_to_draft. now rewrite Eex.
  - destruct (is_post_to_draft s i) eqn:Ep; [| now destruct (H (Honly eq_refl))].
    unfold is_post_to_draft in Ep. apply andb_true_iff in Ep. destruct Ep as [_ Ep].
    destruct i as [| | | text |]; try discriminate.
    apply andb_true_iff in Ep. destruct Ep as [Hpost' Hheld].
    apply String.eqb_eq in Hpost'.
    destruct (current_tweet (globals s)) as [draft |] eqn:Ed; [| discriminate].
    exists text, draft. repeat split; auto.
    unfold text_truthy in Hheld. apply negb_true_iff in Hheld.
    now apply String.eqb_neq.
Qed.

Lemma only_post_publishes_witness :
  let w := sample_world sample_news sample_draft_reply None in
  exists text draft,
    text_message "Post" = text_message text /\ lower text = "post" /\
    current_tweet (globals sample_session_with_draft) = Some draft /\ draft <> "".
Proof.
  intros w.
  destruct (only_post_publishes sample_str sample_strip w sample_session_with_draft
              (text_message "Post")) as [_ [Honly _]].
  apply Honly. cbv. discriminate.
Defined.

(** ** The watchdog and user activity *)

Lemma handler_stamps (py_str : jvalue -> string) (py_strip : string -> string)
    (i : input) (w : World) (s : Sys) :
  is_user_event i = true ->
  holds (stamped_since (asked s)) w (snd (handler py_str py_strip i w s)).
Proof.
  intros Hi. destruct i as [| | | text | cb]; try discriminate; cbn [handler].
  - apply stamp_start; first [apply stamped_now | exact _].
  - apply stamp_help_command; first [apply stamped_now | exact _].
  - apply stamp_tweet_command; first [apply stamped_now | exact _].
  - apply stamp_handle_message; first [apply stamped_now | exact _].
Qed.

Lemma sample_clock_truthy (news gemini : http_result) (twitter : option string) (k : nat) :
  float_truthy (time_time (sample_world news gemini twitter) k) = true.
Proof. reflexivity. Qed.

(** User activity extends the deadline: right after a command or a text
    message has been handled, a tick of the watchdog whose clock reading,
    less any reading taken during that handling, is as a float below
    [TIMEOUT_SECONDS] does not end the process; it starts the next 30-second
    timer, however long the bot had been idle before the event. *)
Theorem activity_extends_deadline (py_str : jvalue -> string) (py_strip : string -> string)
    (w : World) (s : Sys) (i : input) :
  is_user_event i = true ->
  (forall k, float_truthy (time_time w k) = true) ->
  let s' := snd (handler py_str py_strip i w s) in
  (forall j, asked s <= j < asked s' ->
     float_ge_int (float_sub (time_time w (asked s')) (time_time w j)) TIMEOUT_SECONDS
     = false) ->
  check_inactivity_timeout w s' =
  (Done tt, mkSys (globals s') (log s' ++ [timer_start 30%Q cb_check_inactivity_timeout])
                  (S (asked s')) (exited s')).
Proof.
  intros Hi Hpos s' Hrecent.
  destruct (handler_stamps py_str py_strip i w s Hi) as [j [Hj Hlast]].
  fold s' in Hj, Hlast.
  rewrite (check_inactivity_timeout_run w s' (time_time w j)
             (reference_time_activity _ _ Hlast (Hpos j))).
  now rewrite (Hrecent j Hj).
Qed.

Lemma activity_extends_deadline_witness :
  let w := sample_world sample_news sample_draft_reply None in
  let idle := mkSys (globals sample_session_with_draft) [] 5000 false in
  fst (check_inactivity_timeout w idle) = Exit /\
  fst (check_inactivity_timeout w (snd (handler sample_str sample_strip cmd_help w idle)))
  = Done tt.
Proof.
  intros w idle. split; [vm_compute; reflexivity |].
  rewrite (activity_extends_deadline sample_str sample_strip w idle cmd_help eq_refl
             (sample_clock_truthy _ _ _)); [reflexivity |].
  intros j Hj. cbn in Hj. assert (j = 5000) as -> by lia. vm_compute. reflexivity.
Defined.

(** After [main()] and any events, under a clock that never shows zero, the
    watchdog never raises and never falls back to the start time: a tick
    measures from the last-activity timestamp, and either exits or starts
    the next timer, by the float difference of the two readings. *)
Theorem watchdog_measures_from_activity (py_str : jvalue -> string)
    (py_strip : string -> string) (w : World) (inputs : list input) :
  (forall k, float_truthy (time_time w k) = true) ->
  let s := run py_str py_strip w (snd (main w boot)) inputs in
  exists t,
    last_activity_time (globals s) = Some t /\
    reference_time (globals s) = Some t /\
    check_inactivity_timeout w s =
    (if float_ge_int (float_sub (time_time w (asked s)) t) TIMEOUT_SECONDS
     then (Exit, mkSys (globals s)
                       (log s ++ [send_telegram_message msg_inactive; os_exit])
                       (S (asked s)) true)
     else (Done tt, mkSys (globals s)
                          (log s ++ [timer_start 30%Q cb_check_inactivity_timeout])
                          (S (asked s)) (exited s))) /\
    (forall e, fst (check_inactivity_timeout w s) <> Raised e).
Proof.
  intros Hpos s.
  destruct (activity_time_always_set py_str py_strip w inputs Hpos) as [t [Ht Hnz]].
  fold s in Ht.
  pose proof (reference_time_activity _ _ Ht Hnz) as Href.
  exists t. split; [exact Ht |]. split; [exact Href |].
  rewrite (check_inactivity_timeout_run w s t Href).
  split; [reflexivity |].
  intros e. destruct (float_ge_int _ _); discriminate.
Qed.

Lemma watchdog_measures_from_activity_witness :
  let w := sample_world sample_news sample_draft_reply None in
  fst (check_inactivity_timeout w
         (run sample_str sample_strip w (snd (main w boot)) [cmd_tweet; text_message "new"]))
  <> Raised TypeError.
Proof.
  intros w.
  destruct (watchdog_measures_from_activity sample_str sample_strip w
              [cmd_tweet; text_message "new"] (sample_clock_truthy _ _ _))
    as [t [_ [_ [_ Hnever]]]].
  exact (Hnever TypeError).
Defined.

(** ** The HTTP trigger *)

(** Unfolds the POST handler down to the state it computes. *)
Ltac run_api :=
  unfold do_POST, try_except, post_tweet_flow, api_do_post_tweet, do_fetch_tech_news,
    do_generate_tweet_text, getitem_article, bind, ret, read, write, emit, ask, lift;
  cbn [fst snd globals log asked exited].

Lemma post_tweet_flow_frame (py_str : jvalue -> string) (py_strip : string -> string)
    (w : World) (s : Sys) :
  let r := post_tweet_flow py_str py_strip w s in
  fst r <> Exit /\
  globals (snd r) = globals s /\
  exited (snd r) = exited s /\
  publish_calls (log (snd r)) <= publish_calls (log s) + 1.
Proof.
  destruct s as [g l k ex]. run_api. simpl.
  repeat (case_step; simpl); repeat split; try discriminate; count_leaf.
Qed.

Lemma post_tweet_flow_success (py_str : jvalue -> string) (py_strip : string -> string)
    (w : World) (s : Sys) (m : string) (t : jvalue) (x : string) :
  fst (post_tweet_flow py_str py_strip w s) = Done (reply_success m t x) ->
  exists batch a,
    fetch_tech_news (news_api w (asked s)) = Return (Some batch) /\
    nth_error batch (random_draw w (S (asked s)) mod List.length batch) = Some a /\
    t = title a /\
    generate_tweet_text py_str py_strip a (gemini_api w (S (S (asked s)))) = Return (Some x) /\
    twitter_api w (S (S (S (asked s)))) = None /\
    m = "Tweet posted successfully!" /\
    log (snd (post_tweet_flow py_str py_strip w s))
    = log s ++ [requests_get; requests_post a; create_tweet x].
Proof.
  destruct s as [g l k ex]. run_api. simpl.
  repeat (case_step; simpl); intros H; try discriminate H.
  injection H as <- <- <-.
  match goal with
  | Hp : api_post_tweet ?o = (true, _) |- _ =>
      destruct o eqn:Eapi; cbn in Hp; [discriminate Hp | injection Hp as <-]
  end.
  eexists. eexists. repeat split; try eassumption; try reflexivity.
  now rewrite <- !app_assoc.
Qed.

(** A POST never lets an exception escape and never ends the process: it
    always comes back with a reply, which is 404 exactly for a path other
    than [/api/post-tweet]; it leaves the globals alone and calls the
    publisher at most once. *)
Theorem do_POST_always_replies (py_str : jvalue -> string) (py_strip : string -> string)
    (exn_str : exn -> string) (request : post_request) (w : World) (s : Sys) :
  exists reply,
    fst (do_POST py_str py_strip exn_str request w s) = Done reply /\
    (reply = reply_not_found <-> request_path request <> "/api/post-tweet") /\
    globals (snd (do_POST py_str py_strip exn_str request w s)) = globals s /\
    exited (snd (do_POST py_str py_strip exn_str request w s)) = exited s /\
    publish_calls (log (snd (do_POST py_str py_strip exn_str request w s)))
    <= publish_calls (log s) + 1.
Proof.
  unfold do_POST.
  destruct (request_path request =? "/api/post-tweet")%string eqn:Epath.
  - apply String.eqb_eq in Epath.
    assert (Hright : forall reply, reply <> reply_not_found ->
              (reply = reply_not_found <-> request_path request <> "/api/post-tweet")).
    { intros reply Hr. split; [contradiction | congruence]. }
    destruct (content_length_error request) as [msg |].
    + exists (reply_error msg). cbn. repeat split; try lia;
        apply Hright; discriminate.
    + destruct (post_tweet_flow_frame py_str py_strip w s) as [Hexit [Hg [Hex Hpub]]].
      unfold try_except.
      destruct (post_tweet_flow py_str py_strip w s) as [[reply | e |] s'] eqn:Eflow;
        cbn [fst snd] in *.
      * exists reply. repeat split; try assumption.
        -- intros ->.
           destruct s as [g l k ex]. revert Eflow. run_api. simpl.
           repeat (case_step; simpl); intros Hq; discriminate Hq.
        -- congruence.
      * exists (reply_error (exn_str e)). cbn. repeat split; try assumption;
          apply Hright; discriminate.
      * contradiction.
  - apply String.eqb_neq in Epath. exists reply_not_found. cbn.
    repeat split; auto; lia.
Qed.

(** A POST answered with status 200 has fetched a batch, picked one of its
    articles (so one with a title and a description or url), drafted a
    tweet from it and published exactly that tweet, once; the reply names
    the title of that article and the tweet. *)
Theorem do_POST_success_report (py_str : jvalue -> string) (py_strip : string -> string)
    (exn_str : exn -> string) (request : post_request) (w : World) (s : Sys)
    (m : string) (t : jvalue) (x : string) :
  fst (do_POST py_str py_strip exn_str request w s) = Done (reply_success m t x) ->
  exists batch a,
    fetch_tech_news (news_api w (asked s)) = Return (Some batch) /\
    In a batch /\ eligible a = true /\ t = title a /\
    generate_tweet_text py_str py_strip a (gemini_api w (S (S (asked s)))) = Return (Some x) /\
    twitter_api w (S (S (S (asked s)))) = None /\
    log (snd (do_POST py_str py_strip exn_str request w s))
    = log s ++ [requests_get; requests_post a; create_tweet x] /\
    publish_calls (log (snd (do_POST py_str py_strip exn_str request w s)))
    = publish_calls (log s) + 1.
Proof.
  unfold do_POST.
  destruct (request_path request =? "/api/post-tweet")%string; [| discriminate].
  destruct (content_length_error request) as [msg |]; [discriminate |].
  unfold try_except.
  destruct (post_tweet_flow py_str py_strip w s) as [[reply | e |] s'] eqn:Eflow;
    cbn [fst snd]; try discriminate.
  intros H. injection H as ->.
  destruct (post_tweet_flow_success py_str py_strip w s m t x) as
    [batch [a [Hfetch [Hnth [Ht [Hgen [Hapi [_ Hlog]]]]]]]].
  { now rewrite Eflow. }
  rewrite Eflow in Hlog. cbn [snd] in Hlog.
  exists batch, a.
  assert (Hin : In a batch) by (eapply nth_error_In; eassumption).
  repeat split; try assumption.
  - destruct (fetch_tech_news_batch _ _ Hfetch)
      as [data [articles [items [arts [_ [_ [_ [_ [_ Hbatch]]]]]]]]].
    rewrite Hbatch in Hin. apply filter_In in Hin. tauto.
  - rewrite Hlog, publish_calls_app. cbn. lia.
Qed.

Lemma do_POST_success_report_witness :
  let w := sample_world sample_news sample_draft_reply None in
  exists batch a,
    fetch_tech_news (news_api w 0) = Return (Some batch) /\
    In a batch /\ eligible a = true /\ JStr "Chips" = title a.
Proof.
  intros w.
  destruct (do_POST_success_report sample_str sample_strip (fun _ => "error")
              (mkRequest "/api/post-tweet" None) w boot
              "Tweet posted successfully!" (JStr "Chips")
              ("Big news #AI" ++ newline ++ newline ++ "http://a")%string eq_refl)
    as [batch [a [Hfetch [Hin [Hel [Ht _]]]]]].
  exists batch, a. auto.
Defined.

(** A failure stops the flow where it happens and is reported with status
    500: a [Content-Length] that cannot be read before any call is made; a
    fetch that raises, with the text of the exception, and a fetch without
    articles, both after the one request to the news source; a generator
    that raises or returns [None], without a call of the publisher. *)
Theorem do_POST_failures (py_str : jvalue -> string) (py_strip : string -> string)
    (exn_str : exn -> string) (w : World) (s : Sys) :
  (forall msg,
     do_POST py_str py_strip exn_str (mkRequest "/api/post-tweet" (Some msg)) w s
     = (Done (reply_error msg), s)) /\
  (forall e,
     fetch_tech_news (news_api w (asked s)) = Raise e ->
     do_POST py_str py_strip exn_str (mkRequest "/api/post-tweet" None) w s
     = (Done (reply_error (exn_str e)),
        mkSys (globals s) (log s ++ [requests_get]) (S (asked s)) (exited s))) /\
  (forall batch,
     fetch_tech_news (news_api w (asked s)) = Return batch ->
     batch_truthy batch = false ->
     do_POST py_str py_strip exn_str (mkRequest "/api/post-tweet" None) w s
     = (Done (reply_error "Failed to fetch news articles"),
        mkSys (globals s) (log s ++ [requests_get]) (S (asked s)) (exited s))) /\
  (forall batch a,
     fetch_tech_news (news_api w (asked s)) = Return (Some batch) ->
     nth_error batch (random_draw w (S (asked s)) mod List.length batch) = Some a ->
     (forall e,
        generate_tweet_text py_str py_strip a (gemini_api w (S (S (asked s)))) = Raise e ->
        do_POST py_str py_strip exn_str (mkRequest "/api/post-tweet" None) w s
        = (Done (reply_error (exn_str e)),
           mkSys (globals s) (log s ++ [requests_get; requests_post a])
                 (S (S (S (asked s)))) (exited s))) /\
     (generate_tweet_text py_str py_strip a (gemini_api w (S (S (asked s)))) = Return None ->
      do_POST py_str py_strip exn_str (mkRequest "/api/post-tweet" None) w s
      = (Done (reply_error "Failed to generate tweet text"),
         mkSys (globals s) (log s ++ [requests_get; requests_post a])
               (S (S (S (asked s)))) (exited s)))).
Proof.
  destruct s as [g l k ex]. cbn [globals log asked exited].
  split; [reflexivity |]. split; [| split].
  - intros e Hf. run_api. simpl. rewrite Hf. reflexivity.
  - intros batch Hf Hb. run_api. simpl. rewrite Hf. simpl. rewrite Hb. reflexivity.
  - intros batch a Hf Hnth.
    assert (Hb : batch_truthy (Some batch) = true).
    { destruct batch; [| reflexivity].
      apply nth_error_In in Hnth. contradiction. }
    split.
    + intros e Hgen. run_api. simpl. rewrite Hf. simpl. rewrite Hb. simpl.
      rewrite Hnth. simpl. rewrite Hgen. simpl. now rewrite <- !app_assoc.
    + intros Hgen. run_api. simpl. rewrite Hf. simpl. rewrite Hb. simpl.
      rewrite Hnth. simpl. rewrite Hgen. simpl. now rewrite <- !app_assoc.
Qed.

Lemma do_POST_failures_witness :
  fst (do_POST sample_str sample_strip (fun _ => "error")
         (mkRequest "/api/post-tweet" None)
         (sample_world Unreachable sample_draft_reply None) boot)
  = Done (reply_error "error") /\
  fst (do_POST sample_str sample_strip (fun _ => "error")
         (mkRequest "/api/post-tweet" None)
         (sample_world sample_news sample_server_error None) boot)
  = Done (reply_error "Failed to generate tweet text").
Proof.
  split.
  - destruct (do_POST_failures sample_str sample_strip (fun _ => "error")
                (sample_world Unreachable sample_draft_reply None) boot)
      as [_ [Hraise _]].
    now rewrite (Hraise ConnectionError eq_refl).
  - destruct (do_POST_failures sample_str sample_strip (fun _ => "error")
                (sample_world sample_news sample_server_error None) boot)
      as [_ [_ [_ Hgen]]].
    destruct (Hgen sample_articles
                (nth 0 sample_articles (mkArticle JNull JNull JNull JNull))
                eq_refl eq_refl) as [_ Hnone].
    now rewrite (Hnone eq_refl).
Defined.

(** ** The command-line loop *)

Lemma select_article_cli_some (py_str : jvalue -> string) (articles : option (list article))
    (used : list nat) (r i : nat) :
  select_article_cli articles (Some used) r = Return (Some i) ->
  exists info, select_article py_str articles (Some used) r = Return (Some (i, info)).
Proof.
  rewrite (select_article_cli_index py_str).
  destruct (select_article py_str articles (Some used) r) as [[[j info] |] | e];
    try discriminate.
  intros H. injection H as <-. now exists info.
Qed.

(** Closes one final state of a round of the loop that goes round again. *)
Ltac cli_leaf Hok :=
  let a' := fresh "articles'" in let u' := fresh "used'" in let Hq := fresh "Hq" in
  intros a' u' Hq;
  first
    [ discriminate Hq
    | injection Hq as <- <-;
      split; [count_leaf |];
      let Hnd := fresh "Hnd" in let Hrange := fresh "Hrange" in
      destruct Hok as [Hnd Hrange];
      try match goal with
          | f : jvalue -> string, Hc : select_article_cli _ _ _ = Return (Some _) |- _ =>
              destruct (select_article_cli_some f _ _ _ _ Hc) as [? ?]
          end;
      match goal with
      | Hs : select_article _ _ (Some _) _ = Return (Some (_, _)) |- _ =>
          let x := fresh "x" in let Hl := fresh "Hl" in let Hlt := fresh "Hlt" in
          pose proof (select_article_fresh _ _ _ _ _ _ Hs);
          destruct (select_article_in_range _ _ _ _ _ _ Hs) as [x [Hl Hlt]];
          first [ injection Hl as <- | rewrite Hl in * | idtac ]
      end;
      split;
      [ first [ apply NoDup_snoc; assumption
              | apply NoDup_cons; [intros [] | apply NoDup_nil] ]
      | simpl;
        first [ intros ? [<- | []]; assumption
              | let j := fresh "j" in let Hj := fresh "Hj" in
                intros j Hj; apply in_app_or in Hj; destruct Hj as [Hj | [<- | []]];
                [now apply Hrange | assumption] ] ] ].

Lemma cli_iteration_continue (py_str : jvalue -> string) (py_strip : string -> string)
    (articles : option (list article)) (used : list nat) (w : World) (s : Sys) :
  cli_state_ok articles used ->
  forall articles' used',
    fst (cli_iteration py_str py_strip articles used w s) = Done (Some (articles', used')) ->
    publish_calls (log (snd (cli_iteration py_str py_strip articles used w s)))
    = publish_calls (log s) /\
    cli_state_ok articles' used'.
Proof.
  intros Hok. destruct s as [g l k ex]. run_handler. simpl.
  rewrite !(select_article_cli_index py_str).
  repeat (case_step; simpl); cli_leaf Hok.
Qed.

Lemma cli_iteration_bound (py_str : jvalue -> string) (py_strip : string -> string)
    (articles : option (list article)) (used : list nat) (w : World) (s : Sys) :
  let r := cli_iteration py_str py_strip articles used w s in
  publish_calls (log (snd r)) <= publish_calls (log s) + 1 /\
  (publish_calls (log (snd r)) <> publish_calls (log s) ->
   fst r = Done None /\ exists l' x, log (snd r) = l' ++ [create_tweet x]).
Proof.
  destruct s as [g l k ex]. run_handler. simpl.
  repeat (case_step; simpl); split; try count_leaf; intros Hgrew;
    first [ exfalso; apply Hgrew; count_leaf
          | split; [reflexivity | eexists; eexists; reflexivity] ].
Qed.

(** One round of the command-line loop that goes round again has not
    published, and hands on locals that fit together: either the same
    batch with one fresh index more in the used list, or a new batch with
    its first index; the used list has no duplicate and stays within the
    batch.  This holds after a failed draft, after ['new'] and after an
    answer that is none of the three words alike. *)
Theorem cli_iteration_keeps_state (py_str : jvalue -> string) (py_strip : string -> string)
    (articles : option (list article)) (used : list nat) (w : World) (s : Sys)
    (articles' : option (list article)) (used' : list nat) :
  cli_state_ok articles used ->
  fst (cli_iteration py_str py_strip articles used w s) = Done (Some (articles', used')) ->
  publish_calls (log (snd (cli_iteration py_str py_strip articles used w s)))
  = publish_calls (log s) /\
  NoDup used' /\
  (exists l, articles' = Some l /\
             (forall i, In i used' -> i < List.length l) /\
             List.length used' <= List.length l).
Proof.
  intros Hok Hcont.
  destruct (cli_iteration_continue py_str py_strip articles used w s Hok _ _ Hcont)
    as [Hpub [Hnd Hrange]].
  split; [exact Hpub |]. split; [exact Hnd |].
  destruct articles' as [l |].
  - exists l. split; [reflexivity |]. split; [exact Hrange |].
    assert (Hle : List.length used' <= List.length (seq 0 (List.length l))).
    { apply NoDup_incl_length; [exact Hnd |].
      intros i Hi. apply in_seq. apply Hrange in Hi. lia. }
    now rewrite length_seq in Hle.
  - exfalso. destruct s as [g l k ex]. revert Hcont. run_handler. simpl.
    rewrite !(select_article_cli_index py_str).
    repeat (case_step; simpl); intros Hq; try discriminate Hq;
      injection Hq as Ha _; try discriminate Ha;
      match goal with
      | Hs : select_article _ None _ _ = Return _ |- _ => discriminate Hs
      | Hb : negb (batch_truthy None) = false |- _ => discriminate Hb
      end.
Qed.

Lemma cli_iteration_keeps_state_witness :
  let w := sample_world sample_news sample_draft_reply None in
  fst (cli_iteration sample_str sample_strip (Some sample_articles) [0] w boot)
  = Done (Some (Some sample_articles, [0; 1])) /\
  NoDup [0; 1].
Proof.
  intros w. split; [reflexivity |].
  refine (proj1 (proj2 (cli_iteration_keeps_state sample_str sample_strip
                          (Some sample_articles) [0] w boot
                          (Some sample_articles) [0; 1] _ eq_refl))).
  split.
  - repeat constructor. intros [].
  - intros i [<- | []]. cbn. lia.
Defined.

Lemma cli_loop_publishes_once (py_str : jvalue -> string) (py_strip : string -> string)
    (fuel : nat) :
  forall articles used w s,
    cli_state_ok articles used ->
    let s' := snd (cli_loop py_str py_strip fuel articles used w s) in
    publish_calls (log s') <= publish_calls (log s) + 1 /\
    (publish_calls (log s') <> publish_calls (log s) ->
     exists l' x, log s' = l' ++ [create_tweet x]).
Proof.
  induction fuel as [| fuel IH]; intros articles used w s Hok.
  - cbn. split; [lia | intros H; now destruct H].
  - cbn [cli_loop]. unfold bind.
    pose proof (cli_iteration_bound py_str py_strip articles used w s) as [Hle Hgrew].
    pose proof (cli_iteration_continue py_str py_strip articles used w s Hok) as Hcont.
    destruct (cli_iteration py_str py_strip articles used w s)
      as [[[[articles' used'] |] | e |] s1]; cbn [fst snd] in *.
    + destruct (Hcont articles' used' eq_refl) as [Hsame Hok'].
      destruct (IH articles' used' w s1 Hok') as [Hle' Hgrew'].
      rewrite Hsame in Hle', Hgrew'. split; assumption.
    + split; [exact Hle |]. intros H. now destruct (Hgrew H).
    + split; [exact Hle |]. intros H. now destruct (Hgrew H).
    + split; [exact Hle |]. intros H. now destruct (Hgrew H).
Qed.

(** A run of the command-line program, however many rounds it makes and
    whatever the user types and the adapters answer, calls the publisher at
    most once; and when it has called it, that call is the last thing the
    program did, so nothing is fetched, drafted or published after a
    post. *)
Theorem cli_main_publishes_at_most_once (py_str : jvalue -> string)
    (py_strip : string -> string) (fuel : nat) (w : World) (s : Sys) :
  let s' := snd (cli_main py_str py_strip fuel w s) in
  publish_calls (log s') <= publish_calls (log s) + 1 /\
  (publish_calls (log s') <> publish_calls (log s) ->
   exists l' x, log s' = l' ++ [create_tweet x]).
Proof.
  unfold cli_main, bind.
  destruct (do_fetch_tech_news w s) as [[articles | e |] s1] eqn:Efetch.
  - assert (Hs1 : publish_calls (log s1) = publish_calls (log s)).
    { destruct s as [g l k ex]. revert Efetch. run_handler.
      destruct (fetch_tech_news _); intros Hq; injection Hq as _ <-;
        cbn [log]; rewrite publish_calls_app; cbn; lia. }
    destruct (negb (batch_truthy articles)) eqn:Eb.
    + cbn [snd ret]. rewrite Hs1. split; [lia | intros H; now destruct H].
    + assert (Hok : cli_state_ok articles []).
      { split; [apply NoDup_nil |]. destruct articles; [intros i [] | reflexivity]. }
      destruct (cli_loop_publishes_once py_str py_strip fuel articles [] w s1 Hok)
        as [Hle Hgrew].
      rewrite Hs1 in Hle, Hgrew. split; assumption.
  - assert (Hs1 : publish_calls (log s1) = publish_calls (log s)).
    { destruct s as [g l k ex]. revert Efetch. run_handler.
      destruct (fetch_tech_news _); intros Hq; injection Hq as _ <-;
        cbn [log]; rewrite publish_calls_app; cbn; lia. }
    cbn [snd]. rewrite Hs1. split; [lia | intros H; now destruct H].
  - destruct s as [g l k ex]. revert Efetch. run_handler.
    destruct (fetch_tech_news _); discriminate.
Qed.

(** ** From [/tweet] to ['post'] *)

Lemma generate_tweet_text_nonempty (py_str : jvalue -> string) (py_strip : string -> string)
    (a : article) (response : http_result) (tweet : string) :
  generate_tweet_text py_str py_strip a response = Return (Some tweet) -> tweet <> "".
Proof.
  unfold generate_tweet_text, extract_tweet. intros H.
  destruct response as [| status_code body]; [discriminate |].
  destruct (status_code =? 200)%Z; [| discriminate].
  destruct body as [data |]; cbn [response_json rbind] in H; [| discriminate].
  repeat match type of H with
         | context [rbind ?r _] => destruct r as [? | []]; cbn [rbind] in H
         end; try discriminate.
  match type of H with
  | context [match ?v with _ => _ end] => is_var v; destruct v; try discriminate
  end.
  injection H as <-. apply append_nonempty. discriminate.
Qed.

(** [/tweet] with a batch that still has an unused article, when the
    generator returns a draft. *)
Lemma tweet_command_success (py_str : jvalue -> string) (py_strip : string -> string)
    (w : World) (s : Sys) (articles : list article) (i : nat) (info : string) (a : article)
    (draft : string) :
  current_articles (globals s) = Some articles ->
  select_article py_str (Some articles) (Some (used_indices (globals s)))
    (random_draw w (S (asked s))) = Return (Some (i, info)) ->
  nth_error articles i = Some a ->
  generate_tweet_text py_str py_strip a (gemini_api w (S (S (asked s))))
  = Return (Some draft) ->
  tweet_command py_str py_strip w s =
  (Done tt,
   mkSys (set_last_activity_time (Some (time_time w (S (S (S (asked s))))))
            (set_current_tweet (Some draft) (set_current_article (Some a)
               (set_used_indices (used_indices (globals s) ++ [i])
                  (set_last_activity_time (Some (time_time w (asked s))) (globals s))))))
         (log s ++ [reply_text msg_looking; reply_text info; reply_text msg_generating;
                    requests_post a; reply_text (msg_preview draft); json_dump a draft])
         (S (S (S (S (asked s))))) (exited s)).
Proof.
  intros Hbatch Hsel Hnth Hgen. destruct s as [g l k ex]. simpl in *.
  assert (Htruthy : batch_truthy (Some articles) = true).
  { destruct articles; [destruct i; discriminate | reflexivity]. }
  assert (Hheld : text_truthy (Some draft) = true).
  { unfold text_truthy. apply negb_true_iff, String.eqb_neq.
    exact (generate_tweet_text_nonempty _ _ _ _ _ Hgen). }
  run_handler. simpl. rewrite Hbatch, Htruthy. simpl.
  rewrite Hbatch, Htruthy. simpl. rewrite Hsel. simpl.
  rewrite Hbatch, Hnth. simpl. rewrite Hgen. simpl. rewrite Hheld. simpl.
  now rewrite <- !app_assoc.
Qed.

(** A [/tweet] that gets a draft holds it, shows it, and writes it to the
    draft file with its article; a ['post'] that follows hands exactly that
    draft to the publisher, once.  The draft is the generator's text for
    the article at the selected index of the batch. *)
Theorem tweet_then_post (py_str : jvalue -> string) (py_strip : string -> string)
    (w w' : World) (s : Sys) (articles : list article) (i : nat) (info : string)
    (a : article) (draft text : string) :
  current_articles (globals s) = Some articles ->
  select_article py_str (Some articles) (Some (used_indices (globals s)))
    (random_draw w (S (asked s))) = Return (Some (i, info)) ->
  nth_error articles i = Some a ->
  generate_tweet_text py_str py_strip a (gemini_api w (S (S (asked s))))
  = Return (Some draft) ->
  lower text = "post" ->
  let s1 := snd (tweet_command py_str py_strip w s) in
  let s2 := snd (handle_message py_str py_strip text w' s1) in
  current_tweet (globals s1) = Some draft /\
  current_article (globals s1) = Some a /\
  used_indices (globals s1) = used_indices (globals s) ++ [i] /\
  log s1 = log s ++ [reply_text msg_looking; reply_text info; reply_text msg_generating;
                     requests_post a; reply_text (msg_preview draft); json_dump a draft] /\
  (exists answer,
     log s2 = log s1 ++ [reply_text msg_posting; create_tweet draft] ++ answer /\
     publish_calls answer = 0) /\
  publish_calls (log s2) = publish_calls (log s) + 1.
Proof.
  intros Hbatch Hsel Hnth Hgen Hpost s1 s2.
  pose proof (generate_tweet_text_nonempty _ _ _ _ _ Hgen) as Hne.
  assert (Hs1 : s1 = snd (tweet_command py_str py_strip w s)) by reflexivity.
  rewrite (tweet_command_success py_str py_strip w s articles i info a draft
             Hbatch Hsel Hnth Hgen) in Hs1.
  cbn [snd] in Hs1.
  assert (Hheld : current_tweet (globals s1) = Some draft) by (rewrite Hs1; reflexivity).
  assert (Hlog1 : publish_calls (log s1) = publish_calls (log s)).
  { rewrite Hs1. cbn [log]. rewrite publish_calls_app. cbn. lia. }
  split; [exact Hheld |]. split; [rewrite Hs1; reflexivity |].
  split; [rewrite Hs1; reflexivity |]. split; [rewrite Hs1; reflexivity |].
  subst s2. destruct (twitter_api w' (S (asked s1))) as [err |] eqn:Eapi.
  - rewrite (handle_message_post_failed py_str py_strip w' s1 text draft err
               Hheld Hne Hpost Eapi).
    cbn [snd log]. split.
    + eexists. split; [reflexivity | reflexivity].
    + rewrite publish_calls_app, Hlog1. cbn. lia.
  - rewrite (handle_message_post_success py_str py_strip w' s1 text draft
               Hheld Hne Hpost Eapi).
    cbn [snd log]. split.
    + eexists. split; [reflexivity | reflexivity].
    + rewrite publish_calls_app, Hlog1. cbn. lia.
Qed.

Lemma tweet_then_post_witness :
  let w := sample_world sample_news sample_draft_reply None in
  let s := mkSys (mkSession (Some sample_articles) [] None None None None) [] 0 false in
  let s1 := snd (tweet_command sample_str sample_strip w s) in
  current_tweet (globals s1)
  = Some ("Big news #AI" ++ newline ++ newline ++ "http://a")%string /\
  publish_calls (log (snd (handle_message sample_str sample_strip "post" w s1))) = 1.
Proof.
  intros w s s1.
  destruct (tweet_then_post sample_str sample_strip w w s sample_articles 0
              (article_info sample_str 0 2
                 (nth 0 sample_articles (mkArticle JNull JNull JNull JNull)))
              (nth 0 sample_articles (mkArticle JNull JNull JNull JNull))
              ("Big news #AI" ++ newline ++ newline ++ "http://a")%string "post"
              eq_refl eq_refl eq_refl eq_refl eq_refl)
    as [Hheld [_ [_ [_ [_ Hcalls]]]]].
  split; [exact Hheld | exact Hcalls].
Defined.

(** ** A batch that is used up *)

(** When every article of the batch has been used, [/tweet] says so,
    fetches once, and, if the fetch brings articles, replaces the batch by
    the new one and starts the used list afresh with the one index it then
    selects from the new batch, whatever the generator does afterwards. *)
Theorem tweet_command_replaces_used_up_batch (py_str : jvalue -> string)
    (py_strip : string -> string) (w : World) (s : Sys)
    (articles batch : list article) :
  current_articles (globals s) = Some articles ->
  articles <> [] ->
  (forall j, j < List.length articles -> In j (used_indices (globals s))) ->
  fetch_tech_news (news_api w (S (S (asked s)))) = Return (Some batch) ->
  batch <> [] ->
  let s' := snd (tweet_command py_str py_strip w s) in
  exists i,
    i < List.length batch /\
    i = random_choice (random_draw w (S (S (S (asked s))))) (seq 0 (List.length batch)) /\
    current_articles (globals s') = Some batch /\
    used_indices (globals s') = [i] /\
    current_article (globals s') = nth_error batch i /\
    count_events is_requests_get (log s') = count_events is_requests_get (log s) + 1 /\
    In (reply_text msg_all_used) (log s').
Proof.
  intros Hbatch Hne Hused Hfetch Hne' s'. subst s'.
  assert (Htruthy : batch_truthy (Some articles) = true).
  { destruct articles; [congruence | reflexivity]. }
  assert (Hnone : forall r,
            select_article py_str (Some articles) (Some (used_indices (globals s))) r
            = Return None).
  { intros r.
    destruct (select_article_cases py_str articles (used_indices (globals s)) r)
      as [[_ H] | [j [info [_ [_ Hin]]]]]; [exact H |].
    apply In_available in Hin. destruct Hin as [Hj Hout]. now apply Hused in Hj. }
  assert (Hall : available_articles (List.length batch) [] = seq 0 (List.length batch)).
  { unfold available_articles. apply forallb_filter_id. apply forallb_forall.
    intros x _. reflexivity. }
  set (i := random_choice (random_draw w (S (S (S (asked s))))) (seq 0 (List.length batch))).
  assert (Hi : i < List.length batch).
  { assert (Hin : In i (seq 0 (List.length batch))).
    { apply random_choice_In. destruct batch; [congruence | discriminate]. }
    apply in_seq in Hin. lia. }
  destruct (nth_error batch i) as [a |] eqn:Ea.
  2: { apply nth_error_None in Ea. lia. }
  assert (Hsel : select_article py_str (Some batch) (Some [])
                   (random_draw w (S (S (S (asked s)))))
                 = Return (Some (i, article_info py_str i (List.length batch) a))).
  { unfold select_article. cbn [List.length]. rewrite Hall.
    destruct (Nat.eqb (List.length (seq 0 (List.length batch))) 0) eqn:E0.
    - apply Nat.eqb_eq in E0. rewrite length_seq in E0.
      destruct batch; [congruence | discriminate].
    - fold i. now rewrite Ea. }
  exists i. split; [exact Hi |]. split; [reflexivity |].
  destruct s as [g l k ex]. cbn [globals asked log] in *.
  run_handler. simpl. rewrite Hbatch, Htruthy. simpl.
  rewrite Hbatch, Htruthy. simpl. rewrite Hnone. simpl.
  rewrite Hfetch. simpl. rewrite Hsel. simpl. rewrite Ea. simpl.
  repeat (case_step; simpl); repeat split;
    first [ count_leaf
          | rewrite ?in_app_iff; simpl; tauto ].
Qed.

Lemma tweet_command_replaces_used_up_batch_witness :
  let w := sample_world sample_news sample_draft_reply None in
  let s := mkSys (mkSession (Some sample_articles) [1; 0] None None None None) [] 0 false in
  current_articles (globals (snd (tweet_command sample_str sample_strip w s)))
  = Some sample_articles /\
  used_indices (globals (snd (tweet_command sample_str sample_strip w s))) = [0].
Proof.
  intros w s.
  destruct (tweet_command_replaces_used_up_batch sample_str sample_strip w s
              sample_articles sample_articles eq_refl)
    as [i [_ [Hi [Hb [Hu _]]]]].
  - discriminate.
  - intros j Hj. cbn in *. destruct j as [| [| j]]; [right; now left | now left | lia].
  - reflexivity.
  - discriminate.
  - split; [exact Hb |]. rewrite Hu, Hi. reflexivity.
Defined.
